(** * Blackjack basic-strategy trainer: strategy chart, hand generation, statistics

    A shallow embedding of [strategy.cpp], [trainer.cpp] and [stats.cpp].
    C++ [int] values are integers of [Z]; [std::string] is [string];
    [char] is [ascii]; every [std::map] is a [gmap] with the same keys.

    The arithmetic of the functions below stays within [int] on every
    [int] argument they are studied on (a hard total above 11 only has
    smaller positive numbers taken off it); the one exception, the
    increments of the statistics counters, is guarded where reachable
    states are defined. *)

From Stdlib Require Import ZArith QArith Qround Lia Ascii String.
From Stdlib Require Import DecimalString DecimalZ.
From stdpp Require Import gmap strings list fin_maps.

Local Open Scope string_scope.
Local Open Scope list_scope.
Local Open Scope Z_scope.

(** ** Loops *)

(** [for (int x : xs) body] over an accumulated state. *)
Definition for_each {S : Type} (xs : list Z) (body : Z → S → S) (s : S) : S :=
  foldl (λ acc x, body x acc) s xs.

(** [for (int i = lo; i <= hi; ++i) body]. *)
Definition for_range {S : Type} (lo hi : Z) (body : Z → S → S) (s : S) : S :=
  for_each (seqZ lo (hi - lo + 1)) body s.

(** [x] occurs in [v]. *)
Definition found_in (v : list Z) (x : Z) : bool := existsb (Z.eqb x) v.

(** ** The strategy chart ([strategy.cpp]) *)

Module Strategy.

(** [std::map<std::pair<int,int>, char>] *)
Abbreviation table := (gmap (Z * Z) ascii).

(** [m[{total, dealer}] = c] *)
Definition assign (total dealer : Z) (c : ascii) (m : table) : table :=
  <[(total, dealer) := c]> m.

Definition build_hard_totals (hard_totals_ : table) : table :=
  (* Hard 5-8: Always hit *)
  let m := for_range 5 8 (λ total,
             for_range 2 11 (λ dealer, assign total dealer "H")) hard_totals_ in
  (* Hard 9: Double vs 3-6, otherwise hit *)
  let m := for_range 2 11 (λ dealer,
             if (3 <=? dealer) && (dealer <=? 6)
             then assign 9 dealer "D" else assign 9 dealer "H") m in
  (* Hard 10: Double vs 2-9, otherwise hit *)
  let m := for_range 2 11 (λ dealer,
             if (2 <=? dealer) && (dealer <=? 9)
             then assign 10 dealer "D" else assign 10 dealer "H") m in
  (* Hard 11: Double vs 2-10, hit vs Ace *)
  let m := for_range 2 11 (λ dealer,
             if dealer <=? 10
             then assign 11 dealer "D" else assign 11 dealer "H") m in
  (* Hard 12: Stand vs 4-6, otherwise hit *)
  let m := for_range 2 11 (λ dealer,
             if (4 <=? dealer) && (dealer <=? 6)
             then assign 12 dealer "S" else assign 12 dealer "H") m in
  (* Hard 13-16: Stand vs 2-6, otherwise hit *)
  let m := for_range 13 16 (λ total,
             for_range 2 11 (λ dealer,
               if (2 <=? dealer) && (dealer <=? 6)
               then assign total dealer "S" else assign total dealer "H")) m in
  (* Hard 17+: Always stand *)
  for_range 17 21 (λ total,
    for_range 2 11 (λ dealer, assign total dealer "S")) m.

Definition build_soft_totals (soft_totals_ : table) : table :=
  (* Soft 13-14: Double vs 5-6, otherwise hit *)
  let m := for_each [13; 14] (λ total,
             for_range 2 11 (λ dealer,
               if (5 <=? dealer) && (dealer <=? 6)
               then assign total dealer "D" else assign total dealer "H"))
             soft_totals_ in
  (* Soft 15-16: Double vs 4-6, otherwise hit *)
  let m := for_each [15; 16] (λ total,
             for_range 2 11 (λ dealer,
               if (4 <=? dealer) && (dealer <=? 6)
               then assign total dealer "D" else assign total dealer "H")) m in
  (* Soft 17: Double vs 3-6, otherwise hit *)
  let m := for_range 2 11 (λ dealer,
             if (3 <=? dealer) && (dealer <=? 6)
             then assign 17 dealer "D" else assign 17 dealer "H") m in
  (* Soft 18: Stand vs 2,7,8; Double vs 3-6; Hit vs 9,10,A *)
  let m := for_range 2 11 (λ dealer,
             if (dealer =? 2) || (dealer =? 7) || (dealer =? 8)
             then assign 18 dealer "S"
             else if (3 <=? dealer) && (dealer <=? 6)
             then assign 18 dealer "D" else assign 18 dealer "H") m in
  (* Soft 19-21: Always stand *)
  for_each [19; 20; 21] (λ total,
    for_range 2 11 (λ dealer, assign total dealer "S")) m.

Definition build_pairs (pairs_ : table) : table :=
  (* A,A: Always split *)
  let m := for_range 2 11 (λ dealer, assign 11 dealer "Y") pairs_ in
  (* 2,2 and 3,3: Split vs 2-7, otherwise hit *)
  let m := for_each [2; 3] (λ pair_val,
             for_range 2 11 (λ dealer,
               if (2 <=? dealer) && (dealer <=? 7)
               then assign pair_val dealer "Y"
               else assign pair_val dealer "H")) m in
  (* 4,4: Split vs 5-6, otherwise hit *)
  let m := for_range 2 11 (λ dealer,
             if (5 <=? dealer) && (dealer <=? 6)
             then assign 4 dealer "Y" else assign 4 dealer "H") m in
  (* 5,5: Never split, treat as hard 10 *)
  let m := for_range 2 11 (λ dealer,
             if (2 <=? dealer) && (dealer <=? 9)
             then assign 5 dealer "D" else assign 5 dealer "H") m in
  (* 6,6: Split vs 2-6, otherwise hit *)
  let m := for_range 2 11 (λ dealer,
             if (2 <=? dealer) && (dealer <=? 6)
             then assign 6 dealer "Y" else assign 6 dealer "H") m in
  (* 7,7: Split vs 2-7, otherwise hit *)
  let m := for_range 2 11 (λ dealer,
             if (2 <=? dealer) && (dealer <=? 7)
             then assign 7 dealer "Y" else assign 7 dealer "H") m in
  (* 8,8: Always split *)
  let m := for_range 2 11 (λ dealer, assign 8 dealer "Y") m in
  (* 9,9: Split vs 2-9 except 7, stand vs 7,10,A *)
  let m := for_range 2 11 (λ dealer,
             if (dealer =? 7) || (dealer =? 10) || (dealer =? 11)
             then assign 9 dealer "S" else assign 9 dealer "Y") m in
  (* 10,10: Never split, always stand *)
  for_range 2 11 (λ dealer, assign 10 dealer "S") m.

Definition build_mnemonics (mnemonics_ : gmap string string) : gmap string string :=
  let m := <["dealer_weak" := "Dealer bust cards (4,5,6) = player gets greedy"]> mnemonics_ in
  let m := <["always_split" := "Aces and eights, don't hesitate"]> m in
  let m := <["never_split" := "Tens and fives, keep them alive"]> m in
  let m := <["teens_vs_strong" := "Teens stay vs weak, flee from strong"]> m in
  let m := <["soft_17" := "A,7 is the tricky soft hand"]> m in
  let m := <["hard_12" := "12 is the exception - only stand vs 4,5,6"]> m in
  <["doubles" := "Double when dealer is weak and you can improve"]> m.

Record StrategyChart : Type := mkStrategyChart {
  hard_totals_ : table;
  soft_totals_ : table;
  pairs_ : table;
  mnemonics_ : gmap string string;
  dealer_groups_ : gmap string (list Z)
}.

(** The constructor [StrategyChart::StrategyChart()]. *)
Definition new : StrategyChart :=
  {| hard_totals_ := build_hard_totals ∅;
     soft_totals_ := build_soft_totals ∅;
     pairs_ := build_pairs ∅;
     mnemonics_ := build_mnemonics ∅;
     dealer_groups_ :=
       <["strong" := [9; 10; 11]]>
         (<["medium" := [2; 3; 7; 8]]> (<["weak" := [4; 5; 6]]> ∅)) |}.

(** [(it != m.end()) ? it->second : 'H'] *)
Definition find_or_hit (m : table) (key : Z * Z) : ascii :=
  match m !! key with
  | Some c => c
  | None => "H"%char
  end.

Definition get_correct_action (c : StrategyChart) (hand_type : string)
    (player_total dealer_card : Z) : ascii :=
  let key := (player_total, dealer_card) in
  if String.eqb hand_type "pair" then find_or_hit (pairs_ c) key
  else if String.eqb hand_type "soft" then find_or_hit (soft_totals_ c) key
  else (* hard *) find_or_hit (hard_totals_ c) key.

(** [std::map::at]: the mapped value, or [std::out_of_range] (here [None])
    when the key is absent. *)
Definition at_ {V : Type} (m : gmap string V) (key : string) : option V :=
  m !! key.

(** [std::find(v.begin(), v.end(), x) != v.end()] *)
Definition found (v : list Z) (x : Z) : bool := found_in v x.

Definition get_explanation (c : StrategyChart) (hand_type : string)
    (player_total dealer_card : Z) : option string :=
  (* Specific explanations for key scenarios *)
  if String.eqb hand_type "pair" && (player_total =? 11) then
    at_ (mnemonics_ c) "always_split"
  else if String.eqb hand_type "pair" && (player_total =? 8) then
    at_ (mnemonics_ c) "always_split"
  else if String.eqb hand_type "pair" && (player_total =? 10) then
    at_ (mnemonics_ c) "never_split"
  else if String.eqb hand_type "pair" && (player_total =? 5) then
    at_ (mnemonics_ c) "never_split"
  else if String.eqb hand_type "soft" && (player_total =? 18) then
    at_ (mnemonics_ c) "soft_17"
  else if String.eqb hand_type "hard" && (player_total =? 12) then
    at_ (mnemonics_ c) "hard_12"
  else
    (* Dealer strength based explanations *)
    (weak_cards ← at_ (dealer_groups_ c) "weak";
     strong_cards ← at_ (dealer_groups_ c) "strong";
     if found weak_cards dealer_card then
       at_ (mnemonics_ c) "dealer_weak"
     else if (13 <=? player_total) && (player_total <=? 16)
             && found strong_cards dealer_card then
       at_ (mnemonics_ c) "teens_vs_strong"
     else Some "Follow basic strategy patterns").

(** The third parameter of the source is unnamed and unused.  A pair
    that is not one of the four absolutes falls through to the tests for
    hard and soft hands, which it fails. *)
Definition is_absolute_rule (hand_type : string) (player_total : Z)
    (_ : Z) : bool :=
  let hard_or_soft :=
    (* Hard 17+ always stand *)
    if String.eqb hand_type "hard" && (17 <=? player_total) then true
    (* Soft 19+ always stand *)
    else if String.eqb hand_type "soft" && (19 <=? player_total) then true
    else false in
  (* Pair absolutes *)
  if String.eqb hand_type "pair" then
    if (player_total =? 11) || (player_total =? 8)
       || (player_total =? 10) || (player_total =? 5) then true
    else hard_or_soft
  else hard_or_soft.

Definition get_dealer_groups (c : StrategyChart) : gmap string (list Z) :=
  dealer_groups_ c.

End Strategy.

(** ** The rule table as the specification words it *)

Module Rules.

Inductive HandCategory : Type := Hard | Soft | Pair.

Inductive Action : Type := Hit | Stand | Double | Split.

(** The category names passed around as [hand_type]. *)
Definition category_name (cat : HandCategory) : string :=
  match cat with
  | Hard => "hard"
  | Soft => "soft"
  | Pair => "pair"
  end.

(** The action codes of [strategy.h]: H, S, D and Y. *)
Definition action_code (a : Action) : ascii :=
  match a with
  | Hit => "H"
  | Stand => "S"
  | Double => "D"
  | Split => "Y"
  end.

(** Valid player totals per category: Hard 5-21, Soft 13-21, Pair 2-11. *)
Definition valid_total (cat : HandCategory) (total : Z) : Prop :=
  match cat with
  | Hard => 5 ≤ total ≤ 21
  | Soft => 13 ≤ total ≤ 21
  | Pair => 2 ≤ total ≤ 11
  end.

Definition valid_dealer (dealer : Z) : Prop := 2 ≤ dealer ≤ 11.

(** [lo ≤ x ≤ hi] as a boolean. *)
Definition within (lo hi x : Z) : bool := (lo <=? x) && (x <=? hi).

(** The rows of the rule table, one branch per row, the Ace being 11. *)
Definition rule (cat : HandCategory) (total dealer : Z) : Action :=
  match cat with
  | Hard =>
      if within 5 8 total then Hit
      else if total =? 9 then (if within 3 6 dealer then Double else Hit)
      else if total =? 10 then (if within 2 9 dealer then Double else Hit)
      else if total =? 11 then (if within 2 10 dealer then Double else Hit)
      else if total =? 12 then (if within 4 6 dealer then Stand else Hit)
      else if within 13 16 total then
        (if within 2 6 dealer then Stand else Hit)
      else Stand
  | Soft =>
      if within 13 14 total then (if within 5 6 dealer then Double else Hit)
      else if within 15 16 total then
        (if within 4 6 dealer then Double else Hit)
      else if total =? 17 then (if within 3 6 dealer then Double else Hit)
      else if total =? 18 then
        (if found_in [2; 7; 8] dealer then Stand
         else if within 3 6 dealer then Double
         else Hit)
      else Stand
  | Pair =>
      if total =? 11 then Split
      else if within 2 3 total then (if within 2 7 dealer then Split else Hit)
      else if total =? 4 then (if within 5 6 dealer then Split else Hit)
      else if total =? 5 then (if within 2 9 dealer then Double else Hit)
      else if total =? 6 then (if within 2 6 dealer then Split else Hit)
      else if total =? 7 then (if within 2 7 dealer then Split else Hit)
      else if total =? 8 then Split
      else if total =? 9 then
        (if found_in [7; 10; 11] dealer then Stand else Split)
      else Stand
  end.

(** The totals of a category's valid range, in order. *)
Definition totals_of (cat : HandCategory) : list Z :=
  match cat with
  | Hard => seqZ 5 17
  | Soft => seqZ 13 9
  | Pair => seqZ 2 10
  end.

(** The chart's answer and the rule table's entry are the same code. *)
Definition agrees (cat : HandCategory) (total dealer : Z) : bool :=
  Ascii.eqb
    (Strategy.get_correct_action Strategy.new (category_name cat) total dealer)
    (action_code (rule cat total dealer)).

(** The key [(total, dealer)] lies in the domain of the sub-table that
    [get_correct_action] consults for [hand_type]: the pair table for
    ["pair"], the soft table for ["soft"], the hard table for every other
    string. *)
Definition lookup_domain (hand_type : string) (total dealer : Z) : Prop :=
  2 ≤ dealer ≤ 11 ∧
  if String.eqb hand_type "pair" then 2 ≤ total ≤ 11
  else if String.eqb hand_type "soft" then 13 ≤ total ≤ 21
  else 5 ≤ total ≤ 21.

(** The category whose table [get_correct_action] consults for a hand
    type string: pairs for ["pair"], soft for ["soft"], hard for every
    other string. *)
Definition consulted (hand_type : string) : HandCategory :=
  if String.eqb hand_type "pair" then Pair
  else if String.eqb hand_type "soft" then Soft
  else Hard.

(** A category string that names none of the three sub-tables. *)
Definition unrecognized (hand_type : string) : Prop :=
  hand_type ≠ "hard" ∧ hand_type ≠ "soft" ∧ hand_type ≠ "pair".

(** Priority (a): the mnemonic of a specific scenario, when there is one. *)
Definition specific_scenario (category : string) (total : Z) : option string :=
  if decide (category = "pair" ∧ (total = 11 ∨ total = 8)) then
    Some "Aces and eights, don't hesitate"
  else if decide (category = "pair" ∧ (total = 10 ∨ total = 5)) then
    Some "Tens and fives, keep them alive"
  else if decide (category = "soft" ∧ total = 18) then
    Some "A,7 is the tricky soft hand"
  else if decide (category = "hard" ∧ total = 12) then
    Some "12 is the exception - only stand vs 4,5,6"
  else None.

(** The mnemonic by priority: (a) a specific scenario, else (b) dealer
    weak, else (c) teens against a strong dealer, else (d) the fallback. *)
Definition explanation_by_priority (category : string) (total dealer : Z)
    : string :=
  match specific_scenario category total with
  | Some text => text
  | None =>
      if decide (dealer ∈ [4; 5; 6]) then
        "Dealer bust cards (4,5,6) = player gets greedy"
      else if decide (13 ≤ total ≤ 16 ∧ dealer ∈ [9; 10; 11]) then
        "Teens stay vs weak, flee from strong"
      else "Follow basic strategy patterns"
  end.

(** Every key of the table has its total in [[lo, hi]] and its dealer card
    in [[2, 11]]. *)
Definition keys_within (lo hi : Z) (m : Strategy.table) : bool :=
  forallb (λ kv : Z * Z * ascii, within lo hi kv.1.1 && within 2 11 kv.1.2)
          (map_to_list m).

End Rules.

(** ** Card materialization ([trainer.cpp]) *)

Module Trainer.

(** The generator [gen] is a static [std::mt19937]: an unending sequence of
    raw outputs read through a cursor.  Nothing is assumed about the
    outputs. *)
Record Gen : Type := mkGen {
  outputs : nat → Z;
  cursor : nat
}.

(** [std::uniform_int_distribution<> dis(a, b); dis(gen)]: some value of
    [[a, b]], chosen by the next raw output; every value of the interval is
    the choice of some output.  The distribution is specified for [a ≤ b]. *)
Definition uniform_int (a b : Z) (g : Gen) : Z * Gen :=
  (a + outputs g (cursor g) `mod` (b - a + 1),
   mkGen (outputs g) (S (cursor g))).

(** The variables of the peel-off loop. *)
Record Peel : Type := mkPeel {
  cards : list Z;
  remaining : Z;
  gen : Gen
}.

(** One test of [while (remaining > 10)] followed by its body: [inl] is the
    state after a whole iteration, [inr] the state on leaving the loop
    (condition false, or [break]). *)
Definition peel_step (s : Peel) : Peel + Peel :=
  if 10 <? remaining s then
    let max_card := Z.min 10 (remaining s - 2) in
    if max_card <? 2 then inr s
    else
      let '(card, g) := uniform_int 2 max_card (gen s) in
      inl (mkPeel (cards s ++ [card]) (remaining s - card) g)
  else inr s.

(** The loop, run for at most [fuel] tests of its condition. *)
Fixpoint peel_loop (fuel : nat) (s : Peel) : option Peel :=
  match fuel with
  | O => None
  | S fuel' =>
      match peel_step s with
      | inl s' => peel_loop fuel' s'
      | inr s' => Some s'
      end
  end.

(** [generate_hand_cards]; the result carries the generator left behind.
    [None] only when [fuel] runs out inside the loop. *)
Definition generate_hand_cards (fuel : nat) (hand_type : string)
    (player_total : Z) (g : Gen) : option (list Z * Gen) :=
  if String.eqb hand_type "pair" then
    Some ([player_total; player_total], g)
  else if String.eqb hand_type "soft" then
    let other_card := player_total - 11 in
    Some ([11; other_card], g)
  else (* hard *)
    if player_total <=? 11 then Some ([player_total], g)
    else
      (* Generate two valid cards (2-10) that sum to player_total *)
      let '(first_card, g1) :=
        uniform_int 2 (Z.min 10 (player_total - 2)) g in
      let second_card := player_total - first_card in
      if 10 <? second_card then
        s ← peel_loop fuel
              (mkPeel [first_card] (player_total - first_card) g1);
        Some (if 2 <=? remaining s
              then cards s ++ [remaining s] else cards s,
              gen s)
      else if second_card <? 2 then Some ([player_total], g1)
      else Some ([first_card; second_card], g1).

(** [std::accumulate(cards.begin(), cards.end(), 0)] *)
Definition sum_cards (cs : list Z) : Z := foldl Z.add 0 cs.

(** A generator whose raw outputs are [0, 7, 14, ...]. *)
Definition sevens : Gen := mkGen (λ n, 7 * Z.of_nat n) 0.

(** A card of a hard hand: 2 to 10, so not an Ace. *)
Definition hard_card (c : Z) : Prop := 2 ≤ c ≤ 10.

(** What is asked of the cards generated for a hard total. *)
Definition valid_hard_hand (total : Z) (cs : list Z) : Prop :=
  sum_cards cs = total ∧
  Forall hard_card cs ∧
  (11 ∉ cs) ∧
  (5 ≤ total ≤ 10 → length cs = 1%nat) ∧
  (12 ≤ total → (2 ≤ length cs)%nat).

(** What holds of the loop variables before and after every iteration. *)
Definition peel_invariant (total : Z) (s : Peel) : Prop :=
  Forall hard_card (cards s) ∧
  sum_cards (cards s) + remaining s = total ∧
  2 ≤ remaining s ∧
  (1 ≤ length (cards s))%nat.

End Trainer.

(** ** Session statistics ([stats.cpp]) *)

Module Stats.

(** [struct CategoryData { int correct = 0; int total = 0; }] *)
Record CategoryData : Type := mkCategoryData {
  correct : Z;
  total : Z
}.

Definition CategoryData_init : CategoryData := mkCategoryData 0 0.

Abbreviation buckets := (gmap string CategoryData).

Record Statistics : Type := mkStatistics {
  total_attempts_ : Z;
  correct_answers_ : Z;
  by_category_ : buckets;
  by_dealer_strength_ : buckets
}.

(** The constructor [Statistics::Statistics()]. *)
Definition new : Statistics :=
  {| total_attempts_ := 0;
     correct_answers_ := 0;
     by_category_ :=
       <["pair" := CategoryData_init]>
         (<["soft" := CategoryData_init]>
            (<["hard" := CategoryData_init]> ∅));
     by_dealer_strength_ :=
       <["strong" := CategoryData_init]>
         (<["medium" := CategoryData_init]>
            (<["weak" := CategoryData_init]> ∅)) |}.

(** [d.total++; if (correct) d.correct++;] *)
Definition count (is_correct : bool) (d : CategoryData) : CategoryData :=
  {| correct := if is_correct then correct d + 1 else correct d;
     total := total d + 1 |}.

(** [if (m.find(key) != m.end()) { m[key].total++; ... }] *)
Definition record_in (m : buckets) (key : string) (is_correct : bool)
    : buckets :=
  match m !! key with
  | Some d => <[key := count is_correct d]> m
  | None => m
  end.

(** [Statistics::record_attempt].  The counters are [int]s and [x++] is
    the sum written here only while [x] is below the largest [int]; past
    it the increment overflows and the source has no defined result.  The
    states of [reachable] below are those recorded with that room left,
    and what is proved of recorded counters is proved of them. *)
Definition record_attempt (s : Statistics) (hand_type dealer_strength : string)
    (is_correct : bool) : Statistics :=
  {| total_attempts_ := total_attempts_ s + 1;
     correct_answers_ :=
       if is_correct then correct_answers_ s + 1 else correct_answers_ s;
     by_category_ := record_in (by_category_ s) hand_type is_correct;
     by_dealer_strength_ :=
       record_in (by_dealer_strength_ s) dealer_strength is_correct |}.

(** [for (auto &entry : m) entry.second = CategoryData{};] *)
Definition clear (m : buckets) : buckets := (λ _, CategoryData_init) <$> m.

Definition reset_session (s : Statistics) : Statistics :=
  {| total_attempts_ := 0;
     correct_answers_ := 0;
     by_category_ := clear (by_category_ s);
     by_dealer_strength_ := clear (by_dealer_strength_ s) |}.

Definition get_dealer_strength (dealer_card : Z) : string :=
  if (dealer_card =? 4) || (dealer_card =? 5) || (dealer_card =? 6) then "weak"
  else if (dealer_card =? 2) || (dealer_card =? 3) || (dealer_card =? 7)
          || (dealer_card =? 8) then "medium"
  else "strong".

Section Accuracy.

(** Rounding of an exact quotient or product to the nearest [double]. *)
Variable rnd : Q → Q.

(** [(static_cast<double>(correct) / total) * 100.0]: an [int] converts
    to [double] exactly; the quotient and the product are each rounded. *)
Definition percentage (correct total : Z) : Q :=
  rnd (rnd (inject_Z correct / inject_Z total) * 100)%Q.

Definition bucket_accuracy (m : buckets) (key : string) : Q :=
  match m !! key with
  | None => 0%Q
  | Some d =>
      if total d =? 0 then 0%Q else percentage (correct d) (total d)
  end.

Definition get_category_accuracy (s : Statistics) (category : string) : Q :=
  bucket_accuracy (by_category_ s) category.

Definition get_dealer_strength_accuracy (s : Statistics)
    (strength : string) : Q :=
  bucket_accuracy (by_dealer_strength_ s) strength.

Definition get_session_accuracy (s : Statistics) : Q :=
  if total_attempts_ s =? 0 then 0%Q
  else percentage (correct_answers_ s) (total_attempts_ s).

End Accuracy.

(** The largest [int]; one more increment of a counter holding it is
    undefined. *)
Definition INT_MAX : Z := 2147483647.

(** The states a [Statistics] object goes through: constructed, then any
    sequence of [record_attempt] and [reset_session] calls whose increments
    are defined. *)
Inductive reachable : Statistics → Prop :=
  | reachable_new : reachable new
  | reachable_record s hand_type dealer_strength is_correct :
      reachable s →
      total_attempts_ s < INT_MAX →
      reachable (record_attempt s hand_type dealer_strength is_correct)
  | reachable_reset s :
      reachable s → reachable (reset_session s).

Definition category_keys : list string := ["hard"; "soft"; "pair"].
Definition strength_keys : list string := ["weak"; "medium"; "strong"].

(** Rounding down to a multiple of [1/1024]: a rounding that loses
    information, on which the accuracy functions can be run. *)
Definition round_down_1024 (q : Q) : Q :=
  (inject_Z (Qfloor (q * 1024)) / 1024)%Q.

(** A bucket never counts more correct answers than attempts. *)
Definition bucket_ok (d : CategoryData) : Prop := 0 ≤ correct d ≤ total d.

(** What every reachable state satisfies: counters in order, and exactly
    the constructor's keys in both maps. *)
Definition consistent (s : Statistics) : Prop :=
  0 ≤ correct_answers_ s ≤ total_attempts_ s ∧
  map_Forall (λ _, bucket_ok) (by_category_ s) ∧
  map_Forall (λ _, bucket_ok) (by_dealer_strength_ s) ∧
  (∀ key, is_Some (by_category_ s !! key) ↔ key ∈ category_keys) ∧
  (∀ key, is_Some (by_dealer_strength_ s !! key) ↔ key ∈ strength_keys).

(** One right and one wrong answer on a hard hand against a weak dealer. *)
Definition two_attempts : Statistics :=
  record_attempt (record_attempt new "hard" "weak" true) "hard" "weak" false.

End Stats.

(** ** The console ([ui.cpp]) *)

Module Ui.

(** The terminating character ['\0']. *)
Definition NUL : ascii := "000"%char.

(** [std::toupper] in the "C" locale: the letters a to z move to A to Z,
    every other character stays. *)
Definition toupper (c : ascii) : ascii :=
  let n := N_of_ascii c in
  if ((97 <=? n) && (n <=? 122))%N then ascii_of_N (n - 32) else c.

(** What standard input still holds: the lines [std::getline] will
    return and the numbers [std::cin >> choice] will read (0 for text that
    is no number).  Once the input has ended, [>>] writes nothing and
    [choice], which has no initial value, is whatever [indeterminate]
    says.  What is written to [std::cout] is left out. *)
Record Console : Type := mkConsole {
  lines : list string;
  numbers : list Z;
  indeterminate : Z
}.

(** [std::getline(std::cin, input)] into a fresh string: the next line, or
    the empty string once the input has ended. *)
Definition getline (io : Console) : string * Console :=
  match lines io with
  | [] => ("", io)
  | line :: rest => (line, mkConsole rest (numbers io) (indeterminate io))
  end.

(** [int choice; std::cin >> choice;] followed by [std::cin.ignore]: the
    next number, or the indeterminate value when none is left. *)
Definition read_choice (io : Console) : Z * Console :=
  match numbers io with
  | [] => (indeterminate io, io)
  | n :: rest => (n, mkConsole (lines io) rest (indeterminate io))
  end.

Definition display_menu (io : Console) : Z * Console := read_choice io.

Definition display_dealer_groups (io : Console) : Z * Console :=
  read_choice io.

Definition display_hand_types (io : Console) : Z * Console := read_choice io.

(** The action a line of input stands for. *)
Definition action_of_line (input : string) : ascii :=
  match input with
  | EmptyString => NUL
  | String first _ =>
      let action := toupper first in
      (* Check for quit *)
      if Ascii.eqb action "Q" then NUL else action
  end.

Definition get_user_action (io : Console) : ascii * Console :=
  let '(input, io) := getline io in
  (action_of_line input, io).

(** [!input.empty() && std::toupper(input[0]) == 'Q'] *)
Definition asks_to_quit (input : string) : bool :=
  match input with
  | EmptyString => false
  | String first _ => Ascii.eqb (toupper first) "Q"
  end.

(** Only the answer to the prompt matters here; the four arguments are
    what is printed. *)
Definition display_feedback (correct : bool) (user_action correct_action : ascii)
    (explanation : string) (io : Console) : bool * Console :=
  let '(input, io) := getline io in
  (asks_to_quit input, io).

(** [std::to_string] of an [int]: decimal digits, with a minus sign for a
    negative number. *)
Definition to_string (n : Z) : string :=
  NilZero.string_of_int (Z.to_int n).

Definition card_to_string (card : Z) : string :=
  if card =? 11 then "A"
  else if card =? 10 then "10"
  else to_string card.

Definition action_to_string (action : ascii) : string :=
  if Ascii.eqb action "H" then "HIT"
  else if Ascii.eqb action "S" then "STAND"
  else if Ascii.eqb action "D" then "DOUBLE"
  else if Ascii.eqb action "Y" || Ascii.eqb action "P" then "SPLIT"
  else "UNKNOWN".

End Ui.

(** ** Training sessions ([trainer.cpp]) *)

Module Session.
Import Trainer.

(** The tuple (hand_type, player_cards, player_total, dealer_card). *)
Record Scenario : Type := mkScenario {
  hand_type : string;
  player_cards : list Z;
  player_total : Z;
  dealer_card : Z
}.

(** The static generators a session draws from: the one of its
    [generate_scenario] and the one of [generate_hand_cards]. *)
Record Gens : Type := mkGens {
  scenario_gen : Gen;
  cards_gen : Gen
}.

(** [v[i]] for an [int] index: defined within the vector only. *)
Definition at_index {A : Type} (v : list A) (i : Z) : option A :=
  if i <? 0 then None else v !! Z.to_nat i.

(** [std::uniform_int_distribution<> dis(0, v.size() - 1); v[dis(gen)]] *)
Definition pick {A : Type} (v : list A) (g : Gen) : option (A * Gen) :=
  let '(i, g) := uniform_int 0 (Z.of_nat (length v) - 1) g in
  x ← at_index v i;
  Some (x, g).

Definition hand_types : list string := ["hard"; "soft"; "pair"].
Definition pair_values : list Z := [2; 3; 4; 5; 6; 7; 8; 9; 10; 11].
Definition weak_cards : list Z := [4; 5; 6].
Definition medium_cards : list Z := [2; 3; 7; 8].
Definition strong_cards : list Z := [9; 10; 11].

(** The three ways a hand is drawn, as every mode but the last writes
    them out; each returns the cards and the total. *)
Definition draw_pair (gs : Gens) : option (list Z * Z * Gens) :=
  '(pair_value, g) ← pick pair_values (scenario_gen gs);
  Some ([pair_value; pair_value], pair_value, mkGens g (cards_gen gs)).

Definition draw_soft (gs : Gens) : option (list Z * Z * Gens) :=
  let '(other_card, g) := uniform_int 2 9 (scenario_gen gs) in
  Some ([11; other_card], 11 + other_card, mkGens g (cards_gen gs)).

Definition draw_hard (fuel : nat) (hand_type : string) (gs : Gens)
    : option (list Z * Z * Gens) :=
  let '(player_total, g) := uniform_int 5 20 (scenario_gen gs) in
  '(player_cards, gc) ←
    generate_hand_cards fuel hand_type player_total (cards_gen gs);
  Some (player_cards, player_total, mkGens g gc).

(** The part [RandomTrainingSession] and [DealerGroupTrainingSession]
    share, word for word, once the dealer card is chosen. *)
Definition draw_any_hand (fuel : nat) (dealer_card : Z) (gs : Gens)
    : option (Scenario * Gens) :=
  '(hand_type, g) ← pick hand_types (scenario_gen gs);
  let gs := mkGens g (cards_gen gs) in
  '(player_cards, player_total, gs) ←
    (if String.eqb hand_type "pair" then draw_pair gs
     else if String.eqb hand_type "soft" then draw_soft gs
     else (* hard *) draw_hard fuel hand_type gs);
  Some (mkScenario hand_type player_cards player_total dealer_card, gs).

Definition random_scenario (fuel : nat) (gs : Gens)
    : option (Scenario * Gens) :=
  let '(dealer_card, g) := uniform_int 2 11 (scenario_gen gs) in
  draw_any_hand fuel dealer_card (mkGens g (cards_gen gs)).

Definition dealer_group_scenario (fuel : nat) (dealer_group_ : Z) (gs : Gens)
    : option (Scenario * Gens) :=
  (* Select dealer card based on chosen group *)
  '(dealer_card, g) ←
    (if dealer_group_ =? 1 then (* Weak *) pick weak_cards (scenario_gen gs)
     else if dealer_group_ =? 2 then (* Medium *)
       pick medium_cards (scenario_gen gs)
     else (* Strong *) pick strong_cards (scenario_gen gs));
  draw_any_hand fuel dealer_card (mkGens g (cards_gen gs)).

Definition hand_type_scenario (fuel : nat) (hand_type_choice_ : Z) (gs : Gens)
    : option (Scenario * Gens) :=
  let '(dealer_card, g) := uniform_int 2 11 (scenario_gen gs) in
  let gs := mkGens g (cards_gen gs) in
  if hand_type_choice_ =? 1 then (* Hard totals *)
    '(player_cards, player_total, gs) ← draw_hard fuel "hard" gs;
    Some (mkScenario "hard" player_cards player_total dealer_card, gs)
  else if hand_type_choice_ =? 2 then (* Soft totals *)
    '(player_cards, player_total, gs) ← draw_soft gs;
    Some (mkScenario "soft" player_cards player_total dealer_card, gs)
  else (* Pairs *)
    '(player_cards, player_total, gs) ← draw_pair gs;
    Some (mkScenario "pair" player_cards player_total dealer_card, gs).

(** [struct AbsoluteScenario]; an empty card list asks for generated
    cards. *)
Definition absolutes : list (string * list Z * Z) :=
  [ ("pair", [11; 11], 11);   (* A,A *)
    ("pair", [8; 8], 8);      (* 8,8 *)
    ("pair", [10; 10], 10);   (* 10,10 *)
    ("pair", [5; 5], 5);      (* 5,5 *)
    ("hard", [], 17);         (* Hard 17 *)
    ("hard", [], 18);         (* Hard 18 *)
    ("hard", [], 19);         (* Hard 19 *)
    ("hard", [], 20);         (* Hard 20 *)
    ("soft", [11; 8], 19);    (* Soft 19 *)
    ("soft", [11; 9], 20) ].  (* Soft 20 *)

Definition absolute_scenario (fuel : nat) (gs : Gens)
    : option (Scenario * Gens) :=
  '(scenario, g) ← pick absolutes (scenario_gen gs);
  let '(hand_type, cards, player_total) := scenario in
  let '(dealer_card, g) := uniform_int 2 11 g in
  '(player_cards, gc) ←
    (match cards with
     | [] => (* Hard totals *)
         generate_hand_cards fuel hand_type player_total (cards_gen gs)
     | _ => Some (cards, cards_gen gs)
     end);
  Some (mkScenario hand_type player_cards player_total dealer_card,
        mkGens g gc).

(** The four session classes, each with the fields of its own. *)
Inductive Mode : Type :=
  | RandomMode
  | DealerGroupMode (dealer_group_ : Z)
  | HandTypeMode (hand_type_choice_ : Z)
  | AbsoluteMode.

(** A session object.  Its [strategy_] is the chart the constructor
    builds, [Strategy.new], and is never replaced. *)
Record TrainingSession : Type := mkTrainingSession {
  mode : Mode;
  difficulty_ : string;
  correct_count_ : Z;
  total_count_ : Z
}.

Definition get_mode_name (m : Mode) : string :=
  match m with
  | RandomMode => "random"
  | DealerGroupMode _ => "dealer_groups"
  | HandTypeMode _ => "hand_types"
  | AbsoluteMode => "absolutes"
  end.

Definition get_max_questions (m : Mode) : Z :=
  match m with
  | RandomMode => 50
  | DealerGroupMode _ => 50
  | HandTypeMode _ => 50
  | AbsoluteMode => 20
  end.

Definition generate_scenario (fuel : nat) (m : Mode) (gs : Gens)
    : option (Scenario * Gens) :=
  match m with
  | RandomMode => random_scenario fuel gs
  | DealerGroupMode dealer_group_ => dealer_group_scenario fuel dealer_group_ gs
  | HandTypeMode hand_type_choice_ =>
      hand_type_scenario fuel hand_type_choice_ gs
  | AbsoluteMode => absolute_scenario fuel gs
  end.

(** [setup_session]: whether to go on, and the mode with the choice
    stored. *)
Definition setup_session (m : Mode) (io : Ui.Console)
    : bool * Mode * Ui.Console :=
  match m with
  | DealerGroupMode _ =>
      let '(choice, io) := Ui.display_dealer_groups io in
      (negb (choice =? 0), DealerGroupMode choice, io)
  | HandTypeMode _ =>
      let '(choice, io) := Ui.display_hand_types io in
      (negb (choice =? 0), HandTypeMode choice, io)
  | _ => (true, m, io)
  end.

Definition check_answer (user_action correct_action : ascii) : bool :=
  (* Handle split variations *)
  let user_action :=
    if Ascii.eqb user_action "P" then "Y"%char else user_action in
  Ascii.eqb user_action correct_action.

(** [show_feedback]: [None] when [get_explanation] throws. *)
Definition show_feedback (scenario : Scenario)
    (user_action correct_action : ascii) (io : Ui.Console)
    : option (bool * bool * Ui.Console) :=
  let correct := check_answer user_action correct_action in
  explanation ←
    Strategy.get_explanation Strategy.new (hand_type scenario)
      (player_total scenario) (dealer_card scenario);
  let '(quit_requested, io) :=
    Ui.display_feedback correct user_action correct_action explanation io in
  Some (correct, quit_requested, io).

(** Everything [run] reads and writes. *)
Record World : Type := mkWorld {
  session : TrainingSession;
  stats : Stats.Statistics;
  gens : Gens;
  console : Ui.Console
}.

(** The loop of [run], with [left] questions to go: [left] stands for
    [get_max_questions() - question_count], the only use the loop makes of
    its counter. *)
Fixpoint ask (left : nat) (fuel : nat) (w : World) : option World :=
  match left with
  | O => Some w
  | S left' =>
      let sess := session w in
      '(scenario, gs) ← generate_scenario fuel (mode sess) (gens w);
      let '(user_action, io) := Ui.get_user_action (console w) in
      if Ascii.eqb user_action Ui.NUL then (* User quit *)
        Some (mkWorld sess (stats w) gs io)
      else
        let correct_action :=
          Strategy.get_correct_action Strategy.new (hand_type scenario)
            (player_total scenario) (dealer_card scenario) in
        '(correct, quit_requested, io) ←
          show_feedback scenario user_action correct_action io;
        (* Record statistics *)
        let dealer_strength :=
          Stats.get_dealer_strength (dealer_card scenario) in
        let st :=
          Stats.record_attempt (stats w) (hand_type scenario)
            dealer_strength correct in
        let sess :=
          mkTrainingSession (mode sess) (difficulty_ sess)
            (if (correct : bool) then correct_count_ sess + 1
             else correct_count_ sess)
            (total_count_ sess + 1) in
        let w := mkWorld sess st gs io in
        if (quit_requested : bool) then Some w else ask left' fuel w
  end.

(** [TrainingSession::run]. *)
Definition run (fuel : nat) (w : World) : option World :=
  let sess := session w in
  let '(go_on, m, io) := setup_session (mode sess) (console w) in
  let sess :=
    mkTrainingSession m (difficulty_ sess) (correct_count_ sess)
      (total_count_ sess) in
  let w := mkWorld sess (stats w) (gens w) io in
  if go_on then ask (Z.to_nat (get_max_questions m)) fuel w
  else (* User cancelled setup *) Some w.

End Session.

(** ** Checks run over the whole chart *)

Module Checks.
Import Rules.

(** No entry of the table is the code [c]. *)
Definition avoids (c : ascii) (m : Strategy.table) : bool :=
  forallb (λ kv : Z * Z * ascii, negb (Ascii.eqb kv.2 c)) (map_to_list m).

(** The chart's answer for a category of the rule table. *)
Definition answer (cat : HandCategory) (total dealer : Z) : ascii :=
  Strategy.get_correct_action Strategy.new (category_name cat) total dealer.

Definition dealers : list Z := seqZ 2 10.

(** The table [get_correct_action] looks the key up in. *)
Definition consulted_table (hand_type : string) : Strategy.table :=
  if String.eqb hand_type "pair" then Strategy.pairs_ Strategy.new
  else if String.eqb hand_type "soft" then Strategy.soft_totals_ Strategy.new
  else Strategy.hard_totals_ Strategy.new.

(** The key is one the table holds. *)
Definition has_entry (cat : HandCategory) (total dealer : Z) : bool :=
  match consulted_table (category_name cat) !! (total, dealer) with
  | Some _ => true
  | None => false
  end.

(** On an absolute rule other than a pair of fives, two dealer cards get
    the same answer. *)
Definition absolute_same (cat : HandCategory) (total d1 d2 : Z) : bool :=
  negb (Strategy.is_absolute_rule (category_name cat) total d1)
  || (String.eqb (category_name cat) "pair" && (total =? 5))
  || Ascii.eqb (answer cat total d1) (answer cat total d2).

(** A pair of fives is played as a hard 10. *)
Definition fives_as_hard_10 (dealer : Z) : bool :=
  Ascii.eqb (answer Pair 5 dealer) (if dealer <=? 9 then "D" else "H").

(** Standing on [total] implies standing on the larger [total']. *)
Definition stand_kept (cat : HandCategory) (dealer total total' : Z) : bool :=
  negb (total <=? total')
  || negb (Ascii.eqb (answer cat total dealer) "S")
  || Ascii.eqb (answer cat total' dealer) "S".

(** The first letters of a line that answer with the action. *)
Definition accepted_letters (a : Action) : list ascii :=
  match a with
  | Hit => ["h"; "H"]
  | Stand => ["s"; "S"]
  | Double => ["d"; "D"]
  | Split => ["y"; "Y"; "p"; "P"]
  end%char.

(** The first characters that end the session when an action is asked. *)
Definition quit_letters : list ascii := ["q"; "Q"; Ui.NUL]%char.

(** A lower-case letter. *)
Definition is_lower (c : ascii) : bool :=
  ((97 <=? N_of_ascii c) && (N_of_ascii c <=? 122))%N.

(** The attempts a bucket has counted; none when the bucket is absent. *)
Definition bucket_total (m : Stats.buckets) (key : string) : Z :=
  match m !! key with
  | Some d => Stats.total d
  | None => 0
  end.

(** The attempts counted by the buckets of [keys] together. *)
Definition recorded (m : Stats.buckets) (keys : list string) : Z :=
  foldr (λ key acc, bucket_total m key + acc) 0 keys.

(** The buckets of each map together never hold more attempts than the
    global counter, which stays an [int]. *)
Definition bounded (s : Stats.Statistics) : Prop :=
  Stats.total_attempts_ s ≤ Stats.INT_MAX ∧
  recorded (Stats.by_category_ s) Stats.category_keys
  ≤ Stats.total_attempts_ s ∧
  recorded (Stats.by_dealer_strength_ s) Stats.strength_keys
  ≤ Stats.total_attempts_ s.

(** What the cards of a scenario are, by hand type: a pair is its value
    twice, a soft hand an Ace as 11 and one more card, a hard hand cards
    that add up to the total. *)
Definition valid_scenario (sc : Session.Scenario) : Prop :=
  2 ≤ Session.dealer_card sc ≤ 11 ∧
  ((Session.hand_type sc = "pair" ∧
    2 ≤ Session.player_total sc ≤ 11 ∧
    Session.player_cards sc
    = [Session.player_total sc; Session.player_total sc]) ∨
   (Session.hand_type sc = "soft" ∧
    13 ≤ Session.player_total sc ≤ 20 ∧
    Session.player_cards sc = [11; Session.player_total sc - 11]) ∨
   (Session.hand_type sc = "hard" ∧
    5 ≤ Session.player_total sc ≤ 20 ∧
    Trainer.sum_cards (Session.player_cards sc) = Session.player_total sc ∧
    Forall (λ c, 2 ≤ c ≤ 11) (Session.player_cards sc) ∧
    Session.player_cards sc ≠ [])).

(** The strength a choice of the dealer-group menu practises, and the
    hand type a choice of the hand-type menu practises. *)
Definition chosen_strength (dealer_group_ : Z) : string :=
  if dealer_group_ =? 1 then "weak"
  else if dealer_group_ =? 2 then "medium" else "strong".

Definition chosen_hand_type (hand_type_choice_ : Z) : string :=
  if hand_type_choice_ =? 1 then "hard"
  else if hand_type_choice_ =? 2 then "soft" else "pair".

(** One recorded attempt: hand type, dealer strength, verdict. *)
Definition Attempt : Type := string * string * bool.

Definition record_all (st : Stats.Statistics) (attempts : list Attempt)
    : Stats.Statistics :=
  foldl (λ st '(hand_type, strength, c),
           Stats.record_attempt st hand_type strength c) st attempts.

(** Both names of the attempt have a bucket. *)
Definition recognized (a : Attempt) : Prop :=
  a.1.1 ∈ Stats.category_keys ∧ a.1.2 ∈ Stats.strength_keys.

(** The attempts judged correct. *)
Definition correct_ones (attempts : list Attempt) : Z :=
  Z.of_nat (length (filter (λ a : Attempt, a.2 = true) attempts)).

(** The answer to an absolute-rule scenario. *)
Definition absolute_answer (hand_type : string) (total dealer : Z) : ascii :=
  if String.eqb hand_type "pair" then
    if (total =? 11) || (total =? 8) then "Y"
    else if total =? 10 then "S"
    else if dealer <=? 9 then "D" else "H"
  else "S".

(** What a run of the question loop leaves behind, in terms of the
    attempts it recorded. *)
Definition accounts_for (w w' : Session.World) (attempts : list Attempt)
    : Prop :=
  Session.stats w' = record_all (Session.stats w) attempts ∧
  Forall recognized attempts ∧
  Session.total_count_ (Session.session w')
  = Session.total_count_ (Session.session w) + Z.of_nat (length attempts) ∧
  Session.correct_count_ (Session.session w')
  = Session.correct_count_ (Session.session w) + correct_ones attempts ∧
  Session.mode (Session.session w') = Session.mode (Session.session w).

(** The lines that answer a question, out of the lines still to be read,
    when at most [left] questions are asked: a line read for the action
    ends the session when it stands for no action, and answers a question
    otherwise; the line read next, for going on, ends the session when it
    asks to quit. *)
Fixpoint answers (left : nat) (lines : list string) : list string :=
  match left, lines with
  | S left', line :: rest =>
      if Ascii.eqb (Ui.action_of_line line) Ui.NUL then []
      else if Ui.asks_to_quit (hd "" rest) then [line]
      else line :: answers left' (tl rest)
  | _, _ => []
  end.

(** The attempt recorded for a line that answers a question: the hand
    type and the dealer strength of a valid scenario, and the verdict of
    [check_answer] on the action the line stands for against the chart's
    answer to that scenario. *)
Definition judged (a : Attempt) (line : string) : Prop :=
  ∃ sc,
    valid_scenario sc ∧
    a = (Session.hand_type sc,
         Stats.get_dealer_strength (Session.dealer_card sc),
         Session.check_answer (Ui.action_of_line line)
           (Strategy.get_correct_action Strategy.new (Session.hand_type sc)
              (Session.player_total sc) (Session.dealer_card sc))).

(** The lines that answer a question in a run: none when the setup is
    declined. *)
Definition answered_in (w : Session.World) : list string :=
  if (Session.setup_session (Session.mode (Session.session w))
        (Session.console w)).1.1
  then answers
         (Z.to_nat (Session.get_max_questions
                      (Session.mode (Session.session w))))
         (Ui.lines (Session.console w))
  else [].

(** A fresh absolutes drill in front of a user who answers "s", goes on,
    and then quits. *)
Definition drill : Session.World :=
  Session.mkWorld
    (Session.mkTrainingSession Session.AbsoluteMode "easy" 0 0)
    Stats.new
    (Session.mkGens Trainer.sevens Trainer.sevens)
    (Ui.mkConsole ["s"; ""; "q"] [] 0).

(** The same drill with the input at its end. *)
Definition silent_drill : Session.World :=
  Session.mkWorld
    (Session.mkTrainingSession Session.AbsoluteMode "easy" 0 0)
    Stats.new
    (Session.mkGens Trainer.sevens Trainer.sevens)
    (Ui.mkConsole [] [] 0).

End Checks.

(** * Properties *)

(** ** The strategy chart *)

Module StrategyFacts.
Import Strategy Rules.

Lemma in_seqZ_interval (lo hi x : Z) :
  lo ≤ x ≤ hi → In x (seqZ lo (hi - lo + 1)).
Proof. intros Hx. apply list_elem_of_In, elem_of_seqZ. lia. Qed.

Lemma valid_total_listed cat total :
  valid_total cat total → In total (totals_of cat).
Proof.
  destruct cat; simpl; intros Ht.
  - exact (in_seqZ_interval 5 21 total Ht).
  - exact (in_seqZ_interval 13 21 total Ht).
  - exact (in_seqZ_interval 2 11 total Ht).
Qed.

(** All 360 entries of the three valid ranges, compared one by one. *)
Lemma chart_agrees_everywhere :
  forallb (λ cat,
    forallb (λ total, forallb (agrees cat total) (seqZ 2 10)) (totals_of cat))
    [Hard; Soft; Pair] = true.
Proof. vm_compute. reflexivity. Qed.

Example rule_hard_16_vs_10 : rule Hard 16 10 = Hit.
Proof. reflexivity. Qed.

Example rule_pair_8_vs_2 : rule Pair 8 2 = Split.
Proof. reflexivity. Qed.

Example rule_soft_18_vs_9 : rule Soft 18 9 = Hit.
Proof. reflexivity. Qed.

Example rule_pair_9_vs_7 : rule Pair 9 7 = Stand.
Proof. reflexivity. Qed.

(** C1: for every category, every total of the category's valid range and
    every dealer card from 2 to 11, [get_correct_action] returns the code of
    one of the four actions, namely of the rule table's entry. *)
Theorem get_correct_action_matches_rule_table cat total dealer :
  valid_total cat total →
  valid_dealer dealer →
  get_correct_action new (category_name cat) total dealer
  = action_code (rule cat total dealer).
Proof.
  intros Ht Hd.
  pose proof chart_agrees_everywhere as Hall.
  rewrite forallb_forall in Hall.
  assert (Hcat : In cat [Hard; Soft; Pair]) by (destruct cat; simpl; auto).
  specialize (Hall cat Hcat). rewrite forallb_forall in Hall.
  specialize (Hall total (valid_total_listed cat total Ht)).
  rewrite forallb_forall in Hall.
  specialize (Hall dealer (in_seqZ_interval 2 11 dealer Hd)).
  unfold agrees in Hall. now apply Ascii.eqb_eq in Hall.
Qed.

Lemma get_correct_action_matches_rule_table_witness :
  valid_total Hard 16 ∧ valid_dealer 10 ∧
  get_correct_action new "hard" 16 10 = "H"%char.
Proof.
  split; [unfold valid_total; lia|].
  split; [unfold valid_dealer; lia|].
  apply (get_correct_action_matches_rule_table Hard 16 10);
    [unfold valid_total | unfold valid_dealer]; lia.
Defined.

(** *** Misses default to Hit *)

Lemma keys_within_lookup_None (m : table) lo hi total dealer :
  keys_within lo hi m = true →
  ¬ (lo ≤ total ≤ hi ∧ 2 ≤ dealer ≤ 11) →
  m !! (total, dealer) = None.
Proof.
  intros Hkeys Hout.
  destruct (m !! (total, dealer)) as [c|] eqn:Hlook; [exfalso | reflexivity].
  apply elem_of_map_to_list, list_elem_of_In in Hlook.
  unfold keys_within in Hkeys. rewrite forallb_forall in Hkeys.
  specialize (Hkeys _ Hlook). unfold within in Hkeys. simpl in Hkeys.
  apply Hout. lia.
Qed.

Lemma hard_totals_keys : keys_within 5 21 (hard_totals_ new) = true.
Proof. vm_compute. reflexivity. Qed.

Lemma soft_totals_keys : keys_within 13 21 (soft_totals_ new) = true.
Proof. vm_compute. reflexivity. Qed.

Lemma pairs_keys : keys_within 2 11 (pairs_ new) = true.
Proof. vm_compute. reflexivity. Qed.

(** C3, as stated, fails: a category string that names no sub-table is
    looked up in the hard table, so ["bogus"] with 17 against 10 gets
    Stand, not Hit. *)
Lemma unrecognized_category_reads_hard_table :
  unrecognized "bogus" ∧
  get_correct_action new "bogus" 17 10 = "S"%char ∧
  get_correct_action new "bogus" 17 10 ≠ "H"%char.
Proof.
  split; [repeat split; discriminate|].
  split; [vm_compute; reflexivity | vm_compute; discriminate].
Qed.

Lemma agrees_on_valid cat total dealer :
  valid_total cat total → valid_dealer dealer → agrees cat total dealer = true.
Proof.
  intros Ht Hd.
  pose proof chart_agrees_everywhere as Hall.
  rewrite forallb_forall in Hall.
  assert (Hcat : In cat [Hard; Soft; Pair]) by (destruct cat; simpl; auto).
  specialize (Hall cat Hcat). rewrite forallb_forall in Hall.
  specialize (Hall total (valid_total_listed cat total Ht)).
  rewrite forallb_forall in Hall.
  exact (Hall dealer (in_seqZ_interval 2 11 dealer Hd)).
Qed.

Lemma lookup_domain_consulted hand_type total dealer :
  lookup_domain hand_type total dealer
  ↔ valid_total (consulted hand_type) total ∧ valid_dealer dealer.
Proof.
  unfold lookup_domain, consulted, valid_dealer.
  destruct (String.eqb hand_type "pair");
    [|destruct (String.eqb hand_type "soft")]; simpl; tauto.
Qed.

(** C3, amended: [get_correct_action] never fails; it consults the pair
    table for ["pair"], the soft table for ["soft"] and the hard table for
    every other category string, so that any other string is answered as
    ["hard"] is; within the consulted table's domain the result is the
    table's entry, and whenever the key (total, dealer) lies outside that
    domain the result is Hit. *)
Theorem get_correct_action_miss_is_hit hand_type total dealer :
  get_correct_action new hand_type total dealer
  = get_correct_action new (category_name (consulted hand_type)) total dealer ∧
  (hand_type ≠ "pair" → hand_type ≠ "soft" →
   get_correct_action new hand_type total dealer
   = get_correct_action new "hard" total dealer) ∧
  (lookup_domain hand_type total dealer →
   get_correct_action new hand_type total dealer
   = action_code (rule (consulted hand_type) total dealer)) ∧
  (¬ lookup_domain hand_type total dealer →
   get_correct_action new hand_type total dealer = "H"%char).
Proof.
  assert (Hroute :
    get_correct_action new hand_type total dealer
    = get_correct_action new (category_name (consulted hand_type))
        total dealer).
  { unfold consulted, get_correct_action.
    destruct (String.eqb hand_type "pair"); [reflexivity|].
    destruct (String.eqb hand_type "soft"); reflexivity. }
  split; [exact Hroute|]. split; [|split].
  - intros Hpair Hsoft. rewrite Hroute. unfold consulted.
    destruct (String.eqb_spec hand_type "pair") as [?|_]; [contradiction|].
    destruct (String.eqb_spec hand_type "soft") as [?|_]; [contradiction|].
    reflexivity.
  - intros Hin. apply lookup_domain_consulted in Hin as [Ht Hd].
    rewrite Hroute.
    pose proof (agrees_on_valid _ _ _ Ht Hd) as Hagree.
    unfold agrees in Hagree. now apply Ascii.eqb_eq in Hagree.
  - unfold lookup_domain, get_correct_action, find_or_hit. intros Hout.
    destruct (String.eqb hand_type "pair").
    + rewrite (keys_within_lookup_None _ 2 11); auto using pairs_keys.
      tauto.
    + destruct (String.eqb hand_type "soft").
      * rewrite (keys_within_lookup_None _ 13 21);
          auto using soft_totals_keys.
        tauto.
      * rewrite (keys_within_lookup_None _ 5 21);
          auto using hard_totals_keys.
        tauto.
Qed.

Lemma get_correct_action_miss_is_hit_witness :
  get_correct_action new "Hard" 17 10 = get_correct_action new "hard" 17 10 ∧
  ¬ lookup_domain "soft" 12 6 ∧
  get_correct_action new "soft" 12 6 = "H"%char.
Proof.
  assert (Hout : ¬ lookup_domain "soft" 12 6)
    by (unfold lookup_domain; simpl; lia).
  destruct (get_correct_action_miss_is_hit "Hard" 17 10)
    as (_ & Hhard & _ & _).
  destruct (get_correct_action_miss_is_hit "soft" 12 6)
    as (_ & _ & _ & Hmiss).
  split; [apply Hhard; discriminate|].
  split; [exact Hout | exact (Hmiss Hout)].
Defined.

(** *** Explanations *)

Lemma found_elem_of (v : list Z) (x : Z) : found v x = true ↔ x ∈ v.
Proof.
  unfold found, found_in. rewrite existsb_exists, list_elem_of_In.
  split.
  - intros (y & Hy & Heq). apply Z.eqb_eq in Heq. now subst.
  - intros Hx. exists x. split; [assumption | apply Z.eqb_refl].
Qed.

(** Discharge a test of [specific_scenario] that the case at hand fails. *)
Ltac spec_no := rewrite decide_False by (intuition (congruence || lia)).

(** The part of [get_explanation] after the specific scenarios: both
    dealer groups are found, and so is each mnemonic. *)
Lemma dealer_strength_explanation (total dealer : Z) :
  (weak_cards ← at_ (dealer_groups_ new) "weak";
   strong_cards ← at_ (dealer_groups_ new) "strong";
   if found weak_cards dealer then at_ (mnemonics_ new) "dealer_weak"
   else if (13 <=? total) && (total <=? 16) && found strong_cards dealer
        then at_ (mnemonics_ new) "teens_vs_strong"
        else Some "Follow basic strategy patterns")
  = Some (if decide (dealer ∈ [4; 5; 6]) then
            "Dealer bust cards (4,5,6) = player gets greedy"
          else if decide (13 ≤ total ≤ 16 ∧ dealer ∈ [9; 10; 11]) then
            "Teens stay vs weak, flee from strong"
          else "Follow basic strategy patterns").
Proof.
  change (at_ (dealer_groups_ new) "weak") with (Some [4; 5; 6]).
  change (at_ (dealer_groups_ new) "strong") with (Some [9; 10; 11]).
  cbn [mbind option_bind].
  destruct (found [4; 5; 6] dealer) eqn:Hweak.
  - apply found_elem_of in Hweak. now rewrite decide_True.
  - rewrite decide_False
      by (intros Hin; apply found_elem_of in Hin; congruence).
    destruct (found [9; 10; 11] dealer) eqn:Hstrong.
    + apply found_elem_of in Hstrong.
      destruct (Z.leb_spec 13 total), (Z.leb_spec total 16); simpl.
      * now rewrite decide_True.
      * rewrite decide_False by lia. reflexivity.
      * rewrite decide_False by lia. reflexivity.
      * rewrite decide_False by lia. reflexivity.
    + rewrite andb_false_r.
      rewrite decide_False; [reflexivity|].
      intros [_ Hin]. apply found_elem_of in Hin. congruence.
Qed.

(** C4: [get_explanation] always returns a text, chosen by priority: the
    mnemonic of a specific scenario (pair 11 or 8, pair 10 or 5, soft 18,
    hard 12); otherwise the dealer-weak mnemonic when the dealer card is 4,
    5 or 6; otherwise the teens-versus-strong mnemonic when the total is
    from 13 to 16 and the dealer card is 9, 10 or 11; otherwise the
    fallback text. *)
Theorem get_explanation_by_priority hand_type total dealer :
  get_explanation new hand_type total dealer
  = Some (explanation_by_priority hand_type total dealer).
Proof.
  unfold get_explanation, explanation_by_priority, specific_scenario.
  rewrite dealer_strength_explanation.
  set (general := if decide (dealer ∈ [4; 5; 6]) then _ else _).
  clearbody general.
  destruct (String.eqb_spec hand_type "pair") as [->|Hp].
  - destruct (Z.eqb_spec total 11) as [->|?]; [reflexivity|].
    destruct (Z.eqb_spec total 8) as [->|?]; [reflexivity|].
    destruct (Z.eqb_spec total 10) as [->|?]; [reflexivity|].
    destruct (Z.eqb_spec total 5) as [->|?]; [reflexivity|].
    simpl. repeat spec_no. reflexivity.
  - simpl. repeat spec_no.
    destruct (String.eqb_spec hand_type "soft") as [->|Hs].
    + destruct (Z.eqb_spec total 18) as [->|?]; [reflexivity|].
      simpl. repeat spec_no. reflexivity.
    + simpl. repeat spec_no.
      destruct (String.eqb_spec hand_type "hard") as [->|Hh].
      * destruct (Z.eqb_spec total 12) as [->|?]; [reflexivity|].
        simpl. repeat spec_no. reflexivity.
      * simpl. repeat spec_no. reflexivity.
Qed.

(** C5: [is_absolute_rule] is true exactly for a pair of 5, 8, 10 or 11, a
    hard total of 17 or more, and a soft total of 19 or more. *)
Theorem is_absolute_rule_iff hand_type total dealer :
  is_absolute_rule hand_type total dealer = true
  ↔ (hand_type = "pair"
     ∧ (total = 5 ∨ total = 8 ∨ total = 10 ∨ total = 11))
    ∨ (hand_type = "hard" ∧ 17 ≤ total)
    ∨ (hand_type = "soft" ∧ 19 ≤ total).
Proof.
  unfold is_absolute_rule.
  destruct (String.eqb_spec hand_type "pair") as [->|Hp]; simpl.
  - destruct (Z.eqb_spec total 11), (Z.eqb_spec total 8),
      (Z.eqb_spec total 10), (Z.eqb_spec total 5); simpl;
      intuition (lia || discriminate).
  - destruct (String.eqb_spec hand_type "hard") as [->|Hh]; simpl.
    + destruct (Z.leb_spec 17 total); intuition (lia || discriminate).
    + destruct (String.eqb_spec hand_type "soft") as [->|Hs]; simpl.
      * destruct (Z.leb_spec 19 total); intuition (lia || discriminate).
      * intuition (congruence || discriminate).
Qed.

End StrategyFacts.

(** ** Card materialization *)

Module TrainerFacts.
Import Trainer.

(** Enter the hard branch of [generate_hand_cards]. *)
Ltac hard_branch :=
  unfold generate_hand_cards;
  change (String.eqb "hard" "pair") with false;
  change (String.eqb "hard" "soft") with false;
  cbv iota.

Lemma uniform_int_range a b g :
  a ≤ b → a ≤ (uniform_int a b g).1 ≤ b.
Proof.
  intros Hab. unfold uniform_int. cbn.
  pose proof (Z.mod_pos_bound (outputs g (cursor g)) (b - a + 1)). lia.
Qed.

Lemma sum_cards_snoc cs c : sum_cards (cs ++ [c]) = sum_cards cs + c.
Proof. unfold sum_cards. now rewrite foldl_app. Qed.

(** A whole iteration appends a card from 2 to [min(10, remaining - 2)]
    and takes it off [remaining]. *)
Lemma peel_step_inl s s' :
  peel_step s = inl s' →
  ∃ card, 2 ≤ card ≤ Z.min 10 (remaining s - 2) ∧
          10 < remaining s ∧
          cards s' = cards s ++ [card] ∧
          remaining s' = remaining s - card.
Proof.
  unfold peel_step.
  destruct (Z.ltb_spec 10 (remaining s)) as [Hrem|Hrem]; [|discriminate].
  destruct (Z.ltb_spec (Z.min 10 (remaining s - 2)) 2) as [Hmax|Hmax];
    [discriminate|].
  pose proof (uniform_int_range 2 _ (gen s) Hmax) as Hcard.
  destruct (uniform_int 2 (Z.min 10 (remaining s - 2)) (gen s)) as [card g].
  intros [= <-]. exists card. simpl in *. auto.
Qed.

(** The loop is left with its state unchanged, and only through its
    condition: the [break] needs [remaining > 10] and
    [min(10, remaining - 2) < 2] at once. *)
Lemma peel_step_inr s s' :
  peel_step s = inr s' → s' = s ∧ remaining s ≤ 10.
Proof.
  unfold peel_step.
  destruct (Z.ltb_spec 10 (remaining s)) as [Hrem|Hrem].
  - destruct (Z.ltb_spec (Z.min 10 (remaining s - 2)) 2) as [Hmax|Hmax].
    + lia.
    + destruct (uniform_int _ _ _). discriminate.
  - intros [= <-]. auto.
Qed.

Lemma peel_loop_terminates fuel : ∀ s,
  (Z.to_nat (remaining s - 10) < fuel)%nat → is_Some (peel_loop fuel s).
Proof.
  induction fuel as [|fuel IH]; intros s Hfuel; [lia|].
  simpl. destruct (peel_step s) as [s'|s'] eqn:Hstep; [|eauto].
  apply peel_step_inl in Hstep as (card & Hcard & Hrem & _ & Hrem').
  apply IH. rewrite Hrem'. lia.
Qed.

Lemma peel_loop_more_fuel fuel : ∀ fuel' s r,
  peel_loop fuel s = Some r → (fuel ≤ fuel')%nat → peel_loop fuel' s = Some r.
Proof.
  induction fuel as [|fuel IH]; intros fuel' s r Hrun Hle; [discriminate|].
  destruct fuel' as [|fuel']; [lia|].
  simpl in *. destruct (peel_step s); [|assumption].
  apply IH; [assumption | lia].
Qed.

Lemma peel_step_invariant total s s' :
  peel_invariant total s → peel_step s = inl s' → peel_invariant total s'.
Proof.
  intros (Hcards & Hsum & Hrem & Hlen) Hstep.
  apply peel_step_inl in Hstep as (card & Hcard & Hbig & Hcards' & Hrem').
  unfold peel_invariant. rewrite Hcards', Hrem', sum_cards_snoc, length_app.
  repeat split; try lia.
  apply Forall_app. split; [assumption|].
  apply Forall_singleton. unfold hard_card. lia.
Qed.

Lemma peel_loop_invariant total fuel : ∀ s r,
  peel_invariant total s → peel_loop fuel s = Some r →
  peel_invariant total r ∧ remaining r ≤ 10.
Proof.
  induction fuel as [|fuel IH]; intros s r Hinv Hrun; [discriminate|].
  simpl in Hrun. destruct (peel_step s) as [s'|s'] eqn:Hstep.
  - eapply IH; [|eassumption]. eapply peel_step_invariant; eassumption.
  - apply peel_step_inr in Hstep as [-> Hrem].
    injection Hrun as <-. auto.
Qed.

(** For a hard total of 12 or more, whatever is returned is a hand of two
    or more cards from 2 to 10 that sum to the total. *)
Lemma generate_hard_from_12 fuel total g cs g' :
  12 ≤ total →
  generate_hand_cards fuel "hard" total g = Some (cs, g') →
  sum_cards cs = total ∧ Forall hard_card cs ∧ (2 ≤ length cs)%nat.
Proof.
  intros Htotal. hard_branch.
  destruct (Z.leb_spec total 11) as [?|_]; [lia|].
  assert (Hmax : 2 ≤ Z.min 10 (total - 2)) by lia.
  pose proof (uniform_int_range 2 _ g Hmax) as Hfirst.
  destruct (uniform_int 2 (Z.min 10 (total - 2)) g) as [first_card g1].
  simpl in Hfirst.
  destruct (Z.ltb_spec 10 (total - first_card)) as [Hsecond|Hsecond].
  - destruct (peel_loop fuel _) as [r|] eqn:Hrun; cbn [mbind option_bind];
      [|discriminate].
    apply (peel_loop_invariant total) in Hrun
      as [(Hcards & Hsum & Hrem & Hlen) Hle].
    + destruct (Z.leb_spec 2 (remaining r)) as [_|?]; [|lia].
      intros [= <- <-]. rewrite sum_cards_snoc, length_app. simpl.
      repeat split; try lia.
      apply Forall_app. split; [assumption|].
      apply Forall_singleton. unfold hard_card. lia.
    + unfold peel_invariant, sum_cards, hard_card. simpl.
      repeat split; try lia. apply Forall_singleton. lia.
  - destruct (Z.ltb_spec (total - first_card) 2) as [?|_]; [lia|].
    intros [= <- <-]. unfold sum_cards, hard_card. simpl.
    repeat split; try lia.
    repeat constructor; lia.
Qed.

(** With fuel for [player_total] tests of the loop condition, a result is
    returned, and more fuel returns the same. *)
Lemma generate_hand_cards_returns hand_type total g :
  ∃ cs g', ∀ fuel,
    (Z.to_nat total ≤ fuel)%nat →
    generate_hand_cards fuel hand_type total g = Some (cs, g').
Proof.
  unfold generate_hand_cards.
  destruct (String.eqb hand_type "pair"); [eauto|].
  destruct (String.eqb hand_type "soft"); [eauto|].
  destruct (Z.leb_spec total 11) as [?|Htotal]; [eauto|].
  assert (Hmax : 2 ≤ Z.min 10 (total - 2)) by lia.
  pose proof (uniform_int_range 2 _ g Hmax) as Hfirst.
  destruct (uniform_int 2 (Z.min 10 (total - 2)) g) as [first_card g1].
  simpl in Hfirst.
  destruct (Z.ltb_spec 10 (total - first_card)) as [Hsecond|Hsecond].
  - set (s0 := mkPeel [first_card] (total - first_card) g1).
    destruct (peel_loop_terminates (Z.to_nat total) s0) as [r Hrun].
    { simpl. lia. }
    eexists _, _. intros fuel Hfuel.
    rewrite (peel_loop_more_fuel _ fuel _ _ Hrun Hfuel). reflexivity.
  - destruct (total - first_card <? 2); eauto.
Qed.

(** C2, as stated, fails at the hard total 11: the hand is the single
    card 11, an Ace, which is neither below 11 nor within 2 to 10. *)
Lemma hard_eleven_is_a_single_eleven :
  5 ≤ 11 ≤ 21 ∧
  (Z.to_nat 11 ≤ 11)%nat ∧
  generate_hand_cards 11 "hard" 11 sevens = Some ([11], sevens) ∧
  ¬ valid_hard_hand 11 [11].
Proof.
  split; [lia|]. split; [reflexivity|]. split; [reflexivity|].
  intros (_ & _ & Hno11 & _). apply Hno11. constructor.
Qed.

(** C2, amended: for every hard total from 5 to 21 and every sequence of
    draws, [generate_hand_cards] returns cards that sum to the total; for
    a total other than 11 every card is from 2 to 10 and none is 11, while
    for the total 11 the hand is the single card 11; for totals from 5 to
    11 there is exactly one card, from 12 on two or more. *)
Theorem generate_hard_hand_cards total g fuel :
  5 ≤ total ≤ 21 →
  (Z.to_nat total ≤ fuel)%nat →
  ∃ cs g',
    generate_hand_cards fuel "hard" total g = Some (cs, g') ∧
    sum_cards cs = total ∧
    (total ≠ 11 → Forall hard_card cs ∧ 11 ∉ cs) ∧
    (total = 11 → cs = [11]) ∧
    (5 ≤ total ≤ 11 → length cs = 1%nat) ∧
    (12 ≤ total → (2 ≤ length cs)%nat).
Proof.
  intros Htotal Hfuel.
  destruct (generate_hand_cards_returns "hard" total g) as (cs & g' & Hgen).
  specialize (Hgen fuel Hfuel). exists cs, g'. split; [assumption|].
  destruct (Z.le_gt_cases total 11) as [Hlow|Hhigh].
  - revert Hgen. hard_branch.
    destruct (Z.leb_spec total 11) as [_|?]; [|lia]. intros Hgen.
    injection Hgen as <- <-. unfold sum_cards, hard_card. simpl.
    repeat split; try lia.
    + apply Forall_singleton. lia.
    + intros Hin. apply list_elem_of_singleton in Hin. lia.
    + intros ->. reflexivity.
  - destruct (generate_hard_from_12 fuel total g cs g') as (Hsum & Hcards & Hlen);
      [lia | assumption |].
    repeat split; try lia; try assumption.
    intros Hin. rewrite Forall_forall in Hcards.
    specialize (Hcards 11 Hin). unfold hard_card in Hcards. lia.
Qed.

Lemma generate_hard_hand_cards_witness :
  5 ≤ 21 ≤ 21 ∧ (Z.to_nat 21 ≤ 21)%nat ∧
  ∃ cs g',
    generate_hand_cards 21 "hard" 21 sevens = Some (cs, g') ∧
    sum_cards cs = 21 ∧
    (21 ≠ 11 → Forall hard_card cs ∧ 11 ∉ cs) ∧
    (21 = 11 → cs = [11]) ∧
    (5 ≤ 21 ≤ 11 → length cs = 1%nat) ∧
    (12 ≤ 21 → (2 ≤ length cs)%nat).
Proof.
  split; [lia|]. split; [reflexivity|].
  apply (generate_hard_hand_cards 21 sevens 21); [lia | reflexivity].
Defined.

Example generate_hard_21_sevens :
  generate_hand_cards 21 "hard" 21 sevens
  = Some ([2; 9; 10], mkGen (outputs sevens) 2).
Proof. reflexivity. Qed.

(** C6: every test of the loop condition either leaves the loop or runs an
    iteration that appends a card of at least 2 and takes it off
    [remaining], which strictly decreases; hence [generate_hand_cards]
    returns a result on every input, the same for every amount of fuel
    from [player_total] on. *)
Theorem generate_hand_cards_terminates hand_type total g :
  (∀ s,
     peel_step s = inr s ∨
     ∃ s' card,
       peel_step s = inl s' ∧ 2 ≤ card ∧
       cards s' = cards s ++ [card] ∧
       remaining s' = remaining s - card ∧
       remaining s' < remaining s) ∧
  ∃ cs g', ∀ fuel,
    (Z.to_nat total ≤ fuel)%nat →
    generate_hand_cards fuel hand_type total g = Some (cs, g').
Proof.
  split; [|apply generate_hand_cards_returns].
  intros s. destruct (peel_step s) as [s'|s'] eqn:Hstep.
  - right. exists s'.
    apply peel_step_inl in Hstep as (card & Hcard & Hrem & Hcards' & Hrem').
    exists card. repeat split; auto; lia.
  - left. apply peel_step_inr in Hstep as [-> _]. reflexivity.
Qed.

Lemma generate_hand_cards_terminates_witness :
  ∃ cs g', generate_hand_cards 21 "hard" 21 sevens = Some (cs, g').
Proof.
  destruct (generate_hand_cards_terminates "hard" 21 sevens)
    as (_ & cs & g' & Hgen).
  exists cs, g'. apply Hgen. reflexivity.
Defined.

(** C10: for a hard total of 12 or more the first card is drawn from 2 to
    [min(10, total - 2)], so the second card is at least 2 and the test
    [second_card < 2] of the fallback branch is false; the hand returned is
    never the single card [total], and never a single card above 10. *)
Theorem hard_fallback_unreachable total g fuel :
  12 ≤ total →
  2 ≤ (uniform_int 2 (Z.min 10 (total - 2)) g).1 ≤ Z.min 10 (total - 2) ∧
  2 ≤ total - (uniform_int 2 (Z.min 10 (total - 2)) g).1 ∧
  (total - (uniform_int 2 (Z.min 10 (total - 2)) g).1 <? 2) = false ∧
  ∀ cs g',
    generate_hand_cards fuel "hard" total g = Some (cs, g') →
    cs ≠ [total] ∧ (2 ≤ length cs)%nat ∧ ¬ ∃ c, cs = [c] ∧ 10 < c.
Proof.
  intros Htotal.
  assert (Hmax : 2 ≤ Z.min 10 (total - 2)) by lia.
  pose proof (uniform_int_range 2 _ g Hmax) as Hfirst.
  split; [assumption|]. split; [lia|]. split; [apply Z.ltb_ge; lia|].
  intros cs g' Hgen.
  apply generate_hard_from_12 in Hgen as (_ & _ & Hlen); [|assumption].
  split; [|split].
  - intros ->. simpl in Hlen. lia.
  - assumption.
  - intros (c & -> & _). simpl in Hlen. lia.
Qed.

Lemma hard_fallback_unreachable_witness :
  12 ≤ 21 ∧
  ∀ cs g',
    generate_hand_cards 21 "hard" 21 sevens = Some (cs, g') →
    cs ≠ [21] ∧ (2 ≤ length cs)%nat ∧ ¬ ∃ c, cs = [c] ∧ 10 < c.
Proof.
  split; [lia|].
  apply (hard_fallback_unreachable 21 sevens 21). lia.
Defined.

(** A pair is its value twice; a soft total from 13 to 20 is an Ace as 11
    and one other card from 2 to 9, summing to the total.  Neither draws
    from the generator. *)
Theorem generate_pair_and_soft_cards fuel total g :
  generate_hand_cards fuel "pair" total g = Some ([total; total], g) ∧
  (13 ≤ total ≤ 20 →
   ∃ other,
     generate_hand_cards fuel "soft" total g = Some ([11; other], g) ∧
     2 ≤ other ≤ 9 ∧ sum_cards [11; other] = total).
Proof.
  split; [reflexivity|].
  intros Htotal. exists (total - 11).
  split; [reflexivity|].
  unfold sum_cards. simpl. lia.
Qed.

Lemma generate_pair_and_soft_cards_witness :
  ∃ other,
    generate_hand_cards 0 "soft" 18 sevens = Some ([11; other], sevens) ∧
    2 ≤ other ≤ 9 ∧ sum_cards [11; other] = 18.
Proof.
  apply (generate_pair_and_soft_cards 0 18 sevens). lia.
Defined.

End TrainerFacts.

(** ** Session statistics *)

Module StatsFacts.
Import Stats.

Lemma record_in_lookup (m : buckets) key is_correct k :
  record_in m key is_correct !! k
  = if decide (key = k) then count is_correct <$> m !! k else m !! k.
Proof.
  unfold record_in. destruct (m !! key) as [d|] eqn:Hkey.
  - rewrite lookup_insert. case_decide; [subst; now rewrite Hkey | reflexivity].
  - case_decide; [subst; now rewrite Hkey | reflexivity].
Qed.

Lemma record_in_is_Some (m : buckets) key is_correct k :
  is_Some (record_in m key is_correct !! k) ↔ is_Some (m !! k).
Proof.
  rewrite record_in_lookup. case_decide; [|reflexivity].
  apply fmap_is_Some.
Qed.

Lemma record_in_ok (m : buckets) key is_correct :
  map_Forall (λ _, bucket_ok) m →
  map_Forall (λ _, bucket_ok) (record_in m key is_correct).
Proof.
  intros Hm k d. rewrite record_in_lookup. case_decide.
  - destruct (m !! k) as [d0|] eqn:Hk; [|discriminate].
    intros [= <-]. specialize (Hm k d0 Hk). unfold bucket_ok in *.
    destruct is_correct; simpl; lia.
  - apply Hm.
Qed.

Lemma clear_lookup (m : buckets) k :
  clear m !! k = (λ _, CategoryData_init) <$> m !! k.
Proof. unfold clear. apply lookup_fmap. Qed.

Lemma clear_ok (m : buckets) : map_Forall (λ _, bucket_ok) (clear m).
Proof.
  intros k d. rewrite clear_lookup.
  destruct (m !! k); [|discriminate].
  intros [= <-]. unfold bucket_ok. simpl. lia.
Qed.

Lemma clear_idempotent (m : buckets) : clear (clear m) = clear m.
Proof. unfold clear. now rewrite <- map_fmap_compose. Qed.

Lemma new_consistent : consistent new.
Proof.
  unfold consistent, new, category_keys, strength_keys. simpl.
  split; [lia|].
  split; [|split; [|split]].
  - intros k d Hk.
    rewrite !lookup_insert in Hk.
    repeat case_decide; simplify_eq; unfold bucket_ok; simpl; lia.
  - intros k d Hk.
    rewrite !lookup_insert in Hk.
    repeat case_decide; simplify_eq; unfold bucket_ok; simpl; lia.
  - intros key. rewrite !lookup_insert, !elem_of_cons, elem_of_nil.
    repeat case_decide; subst; rewrite ?lookup_empty, ?is_Some_alt;
      intuition (eauto; congruence).
  - intros key. rewrite !lookup_insert, !elem_of_cons, elem_of_nil.
    repeat case_decide; subst; rewrite ?lookup_empty, ?is_Some_alt;
      intuition (eauto; congruence).
Qed.

Lemma record_attempt_consistent s hand_type dealer_strength is_correct :
  consistent s →
  consistent (record_attempt s hand_type dealer_strength is_correct).
Proof.
  intros (Hglobal & Hcat & Hstr & Hckeys & Hskeys).
  unfold consistent, record_attempt. simpl.
  split; [destruct is_correct; lia|].
  split; [now apply record_in_ok|].
  split; [now apply record_in_ok|].
  split; intros key; rewrite record_in_is_Some; auto.
Qed.

Lemma reset_session_consistent s :
  consistent s → consistent (reset_session s).
Proof.
  intros (_ & _ & _ & Hckeys & Hskeys).
  unfold consistent, reset_session. simpl.
  split; [lia|].
  split; [apply clear_ok|]. split; [apply clear_ok|].
  split; intros key; rewrite clear_lookup, fmap_is_Some; auto.
Qed.

Lemma reachable_consistent s : reachable s → consistent s.
Proof.
  induction 1 as [|s ht ds c _ IH _|s _ IH].
  - apply new_consistent.
  - now apply record_attempt_consistent.
  - now apply reset_session_consistent.
Qed.

(** *** Accuracy *)

Section AccuracyBounds.

Variable rnd : Q → Q.

(** Rounding to nearest is monotone and leaves 0, 1 and 100, which are
    [double] values, as they are. *)
Hypothesis rnd_monotone : ∀ x y, (x <= y)%Q → (rnd x <= rnd y)%Q.
Hypothesis rnd_0 : (rnd 0 == 0)%Q.
Hypothesis rnd_1 : (rnd 1 == 1)%Q.
Hypothesis rnd_100 : (rnd 100 == 100)%Q.

Lemma quotient_in_unit (c t : Z) :
  0 ≤ c ≤ t → 0 < t → (0 <= inject_Z c / inject_Z t <= 1)%Q.
Proof.
  intros Hc Ht.
  assert (Htq : (0 < inject_Z t)%Q) by (now rewrite (Zlt_Qlt 0 t) in Ht).
  split.
  - apply Qle_shift_div_l; [assumption|].
    rewrite Qmult_0_l. rewrite (Zle_Qle 0 c) in Hc. tauto.
  - apply Qle_shift_div_r; [assumption|].
    rewrite Qmult_1_l. rewrite <- Zle_Qle. lia.
Qed.

Lemma percentage_bounds (c t : Z) :
  0 ≤ c ≤ t → 0 < t → (0 <= percentage rnd c t <= 100)%Q.
Proof.
  intros Hc Ht. unfold percentage.
  destruct (quotient_in_unit c t Hc Ht) as [Hlo Hhi].
  apply rnd_monotone in Hlo, Hhi. rewrite rnd_0 in Hlo. rewrite rnd_1 in Hhi.
  split.
  - apply Qle_trans with (rnd 0); [now rewrite rnd_0|].
    apply rnd_monotone.
    apply Qmult_le_0_compat; [assumption | discriminate].
  - apply Qle_trans with (rnd 100); [|now rewrite rnd_100].
    apply rnd_monotone.
    apply Qle_trans with (1 * 100)%Q; [|discriminate].
    apply Qmult_le_compat_r; [assumption | discriminate].
Qed.

Lemma bucket_accuracy_bounds (m : buckets) key :
  map_Forall (λ _, bucket_ok) m →
  (0 <= bucket_accuracy rnd m key <= 100)%Q.
Proof.
  intros Hm. unfold bucket_accuracy.
  destruct (m !! key) as [d|] eqn:Hkey; [|split; discriminate].
  specialize (Hm key d Hkey). unfold bucket_ok in Hm.
  destruct (Z.eqb_spec (total d) 0); [split; discriminate|].
  apply percentage_bounds; lia.
Qed.

Lemma bucket_accuracy_guard (m : buckets) key :
  (∀ d, m !! key = Some d → total d = 0) →
  bucket_accuracy rnd m key = 0%Q.
Proof.
  intros Hzero. unfold bucket_accuracy.
  destruct (m !! key) as [d|]; [|reflexivity].
  now rewrite (Hzero d eq_refl).
Qed.

End AccuracyBounds.

Lemma round_down_1024_monotone x y :
  (x <= y)%Q → (round_down_1024 x <= round_down_1024 y)%Q.
Proof.
  intros Hxy. unfold round_down_1024, Qdiv.
  apply Qmult_le_compat_r; [|discriminate].
  rewrite <- Zle_Qle. apply Qfloor_resp_le.
  apply Qmult_le_compat_r; [assumption | discriminate].
Qed.

(** C7: in every state the three accuracy functions return exactly 0 when
    the total they divide by is 0 (or the bucket is absent), whatever the
    correct count; in every reachable state they return a value from 0 to
    100.  The [double] arithmetic enters through its rounding, of which
    only monotonicity and the exactness of 0, 1 and 100 are used. *)
Theorem accuracy_guarded_and_bounded (rnd : Q → Q) s key :
  (∀ x y, (x <= y)%Q → (rnd x <= rnd y)%Q) →
  (rnd 0 == 0)%Q → (rnd 1 == 1)%Q → (rnd 100 == 100)%Q →
  (total_attempts_ s = 0 → get_session_accuracy rnd s = 0%Q) ∧
  ((∀ d, by_category_ s !! key = Some d → total d = 0) →
   get_category_accuracy rnd s key = 0%Q) ∧
  ((∀ d, by_dealer_strength_ s !! key = Some d → total d = 0) →
   get_dealer_strength_accuracy rnd s key = 0%Q) ∧
  (reachable s →
   (0 <= get_category_accuracy rnd s key <= 100)%Q ∧
   (0 <= get_dealer_strength_accuracy rnd s key <= 100)%Q ∧
   (0 <= get_session_accuracy rnd s <= 100)%Q).
Proof.
  intros Hmono H0 H1 H100.
  split; [|split; [|split]].
  - intros Hzero. unfold get_session_accuracy. now rewrite Hzero.
  - apply bucket_accuracy_guard.
  - apply bucket_accuracy_guard.
  - intros Hreach.
    destruct (reachable_consistent s Hreach) as (Hglobal & Hcat & Hstr & _).
    split; [now apply bucket_accuracy_bounds|].
    split; [now apply bucket_accuracy_bounds|].
    unfold get_session_accuracy.
    destruct (Z.eqb_spec (total_attempts_ s) 0); [split; discriminate|].
    apply percentage_bounds; auto; lia.
Qed.

Lemma two_attempts_reachable : reachable two_attempts.
Proof.
  unfold two_attempts.
  repeat (apply reachable_record; [|vm_compute; reflexivity]).
  apply reachable_new.
Qed.

Lemma accuracy_guarded_and_bounded_witness :
  (0 <= get_category_accuracy round_down_1024 two_attempts "hard" <= 100)%Q ∧
  (0 <= get_dealer_strength_accuracy round_down_1024 two_attempts "hard"
     <= 100)%Q ∧
  (0 <= get_session_accuracy round_down_1024 two_attempts <= 100)%Q.
Proof.
  apply (accuracy_guarded_and_bounded round_down_1024 two_attempts "hard").
  - exact round_down_1024_monotone.
  - reflexivity.
  - reflexivity.
  - reflexivity.
  - exact two_attempts_reachable.
Defined.

Example two_attempts_hard_accuracy :
  (get_category_accuracy round_down_1024 two_attempts "hard" == 50)%Q.
Proof. reflexivity. Qed.

Example two_attempts_soft_accuracy :
  get_category_accuracy round_down_1024 two_attempts "soft" = 0%Q.
Proof. reflexivity. Qed.

(** *** Reset *)

Lemma clear_dom (m : buckets) : dom (clear m) = dom m.
Proof. unfold clear. apply dom_fmap_L. Qed.

Lemma clear_zeroed (m : buckets) key d :
  clear m !! key = Some d → d = CategoryData_init.
Proof.
  rewrite clear_lookup. destruct (m !! key); [|discriminate].
  now intros [= <-].
Qed.

Lemma bucket_accuracy_clear rnd (m : buckets) key :
  bucket_accuracy rnd (clear m) key = 0%Q.
Proof.
  apply bucket_accuracy_guard. intros d Hd.
  now rewrite (clear_zeroed m key d Hd).
Qed.

(** C8: in every state, [reset_session] zeroes the two global counters and
    every bucket of both maps and keeps the keys of both maps; afterwards
    every accuracy is exactly 0; and resetting twice is resetting once. *)
Theorem reset_session_zeroes (rnd : Q → Q) s :
  total_attempts_ (reset_session s) = 0 ∧
  correct_answers_ (reset_session s) = 0 ∧
  (∀ key d, by_category_ (reset_session s) !! key = Some d →
            correct d = 0 ∧ total d = 0) ∧
  (∀ key d, by_dealer_strength_ (reset_session s) !! key = Some d →
            correct d = 0 ∧ total d = 0) ∧
  dom (by_category_ (reset_session s)) = dom (by_category_ s) ∧
  dom (by_dealer_strength_ (reset_session s)) = dom (by_dealer_strength_ s) ∧
  (∀ key, get_category_accuracy rnd (reset_session s) key = 0%Q) ∧
  (∀ key, get_dealer_strength_accuracy rnd (reset_session s) key = 0%Q) ∧
  get_session_accuracy rnd (reset_session s) = 0%Q ∧
  reset_session (reset_session s) = reset_session s.
Proof.
  split; [reflexivity|]. split; [reflexivity|].
  split.
  { intros key d Hd. apply clear_zeroed in Hd. now subst. }
  split.
  { intros key d Hd. apply clear_zeroed in Hd. now subst. }
  split; [apply clear_dom|]. split; [apply clear_dom|].
  split; [intros key; apply bucket_accuracy_clear|].
  split; [intros key; apply bucket_accuracy_clear|].
  split; [reflexivity|].
  unfold reset_session. simpl. now rewrite !clear_idempotent.
Qed.

(** *** Unrecognized keys *)





(** *** Dealer strength *)

(** [x] occurs in none of the listed cards. *)
Ltac not_listed H :=
  repeat (apply elem_of_cons in H as [H|H]; [discriminate H|]);
  apply elem_of_nil in H; destruct H.

(** X1: for every dealer card from 2 to 11, the name [get_dealer_strength]
    returns is the one group of the strategy chart that holds the card. *)
Theorem get_dealer_strength_names_the_group dealer :
  2 ≤ dealer ≤ 11 →
  ∃ group,
    Strategy.get_dealer_groups Strategy.new !! get_dealer_strength dealer
    = Some group ∧
    dealer ∈ group ∧
    ∀ name other,
      Strategy.get_dealer_groups Strategy.new !! name = Some other →
      dealer ∈ other → name = get_dealer_strength dealer.
Proof.
  intros Hdealer.
  assert (Hcases : dealer = 2 ∨ dealer = 3 ∨ dealer = 4 ∨ dealer = 5 ∨
                   dealer = 6 ∨ dealer = 7 ∨ dealer = 8 ∨ dealer = 9 ∨
                   dealer = 10 ∨ dealer = 11) by lia.
  unfold Strategy.get_dealer_groups, Strategy.new,
    Strategy.dealer_groups_.
  repeat (destruct Hcases as [->|Hcases]); try subst dealer;
    (eexists; split; [vm_compute; reflexivity|];
     split; [repeat constructor|];
     intros name other; rewrite !lookup_insert, lookup_empty;
     repeat case_decide; subst; intros [= <-] Hin;
     solve [reflexivity | not_listed Hin]).
Qed.

Lemma get_dealer_strength_names_the_group_witness :
  ∃ group,
    Strategy.get_dealer_groups Strategy.new !! "weak" = Some group ∧
    6 ∈ group.
Proof.
  destruct (get_dealer_strength_names_the_group 6) as (group & Hgroup & Hin & _);
    [lia|].
  exists group. split; [exact Hgroup | exact Hin].
Defined.

End StatsFacts.

(** ** More on the strategy chart *)

Module ChartFacts.
Import Strategy Rules Checks.

Lemma avoids_find_or_hit (m : table) c key :
  avoids c m = true → c ≠ "H"%char → find_or_hit m key ≠ c.
Proof.
  intros Hm Hc. unfold find_or_hit.
  destruct (m !! key) as [x|] eqn:Hkey; [|congruence].
  apply elem_of_map_to_list, list_elem_of_In in Hkey.
  unfold avoids in Hm. rewrite forallb_forall in Hm.
  specialize (Hm _ Hkey). simpl in Hm.
  intros ->. rewrite Ascii.eqb_refl in Hm. discriminate.
Qed.

Lemma hard_totals_avoid_split : avoids "Y" (hard_totals_ new) = true.
Proof. vm_compute. reflexivity. Qed.

Lemma soft_totals_avoid_split : avoids "Y" (soft_totals_ new) = true.
Proof. vm_compute. reflexivity. Qed.

(** X3: whatever the total and the dealer card, Split is answered only
    for the hand type ["pair"]. *)
Theorem split_only_for_pairs hand_type total dealer :
  hand_type ≠ "pair" →
  get_correct_action new hand_type total dealer ≠ "Y"%char.
Proof.
  intros Hpair. unfold get_correct_action.
  destruct (String.eqb_spec hand_type "pair") as [?|_]; [contradiction|].
  destruct (String.eqb hand_type "soft");
    apply avoids_find_or_hit;
    auto using hard_totals_avoid_split, soft_totals_avoid_split;
    discriminate.
Qed.

Lemma split_only_for_pairs_witness :
  get_correct_action new "soft" 18 6 ≠ "Y"%char.
Proof. apply (split_only_for_pairs "soft" 18 6). discriminate. Defined.

Lemma valid_dealer_in dealer : valid_dealer dealer → In dealer dealers.
Proof. exact (StrategyFacts.in_seqZ_interval 2 11 dealer). Qed.

Lemma absolute_same_everywhere :
  forallb (λ cat,
    forallb (λ total,
      forallb (λ d1, forallb (absolute_same cat total d1) dealers) dealers)
      (totals_of cat))
    [Hard; Soft; Pair] = true.
Proof. vm_compute. reflexivity. Qed.

Lemma fives_as_hard_10_everywhere : forallb fives_as_hard_10 dealers = true.
Proof. vm_compute. reflexivity. Qed.

(** X4: where [is_absolute_rule] holds, the answer does not depend on the
    dealer card, except for a pair of fives: that one is doubled against 2
    to 9 and hit against 10 and Ace. *)
Theorem absolute_rule_across_dealers cat total d1 d2 :
  valid_total cat total → valid_dealer d1 → valid_dealer d2 →
  is_absolute_rule (category_name cat) total d1 = true →
  (¬ (cat = Pair ∧ total = 5) → answer cat total d1 = answer cat total d2) ∧
  (cat = Pair → total = 5 →
   answer cat total d1 = (if d1 <=? 9 then "D"%char else "H"%char)).
Proof.
  intros Ht Hd1 Hd2 Habs.
  apply valid_dealer_in in Hd1, Hd2.
  split.
  - intros Hfives.
    pose proof absolute_same_everywhere as Hall.
    rewrite forallb_forall in Hall.
    assert (Hcat : In cat [Hard; Soft; Pair]) by (destruct cat; simpl; auto).
    specialize (Hall cat Hcat). rewrite forallb_forall in Hall.
    specialize (Hall total (StrategyFacts.valid_total_listed cat total Ht)).
    rewrite forallb_forall in Hall. specialize (Hall d1 Hd1).
    rewrite forallb_forall in Hall. specialize (Hall d2 Hd2).
    unfold absolute_same in Hall. rewrite Habs in Hall. simpl in Hall.
    apply orb_true_iff in Hall as [Hall|Hall];
      [|now apply Ascii.eqb_eq in Hall].
    apply andb_true_iff in Hall as [Hp H5]. exfalso. apply Hfives.
    apply Z.eqb_eq in H5. destruct cat; simpl in Hp; try discriminate. auto.
  - intros -> ->.
    pose proof fives_as_hard_10_everywhere as Hall.
    rewrite forallb_forall in Hall. specialize (Hall d1 Hd1).
    now apply Ascii.eqb_eq.
Qed.

Lemma absolute_rule_across_dealers_witness :
  answer Hard 17 2 = answer Hard 17 11.
Proof.
  destruct (absolute_rule_across_dealers Hard 17 2 11) as [Hsame _].
  - unfold valid_total. lia.
  - unfold valid_dealer. lia.
  - unfold valid_dealer. lia.
  - reflexivity.
  - apply Hsame. intros [? _]. discriminate.
Defined.

Lemma stand_kept_everywhere :
  forallb (λ cat,
    forallb (λ dealer,
      forallb (λ total,
        forallb (stand_kept cat dealer total) (totals_of cat))
        (totals_of cat))
      dealers)
    [Hard; Soft] = true.
Proof. vm_compute. reflexivity. Qed.

(** X5: for hard and for soft hands, against any dealer card, once the
    chart stands on a total it stands on every larger total. *)
Theorem stand_is_kept_on_larger_totals cat dealer total total' :
  cat ≠ Pair →
  valid_total cat total → valid_total cat total' → valid_dealer dealer →
  total ≤ total' →
  answer cat total dealer = "S"%char →
  answer cat total' dealer = "S"%char.
Proof.
  intros Hcat Ht Ht' Hd Hle Hstand.
  pose proof stand_kept_everywhere as Hall.
  rewrite forallb_forall in Hall.
  assert (Hin : In cat [Hard; Soft])
    by (destruct cat; simpl; auto; contradiction).
  specialize (Hall cat Hin). rewrite forallb_forall in Hall.
  specialize (Hall dealer (valid_dealer_in dealer Hd)).
  rewrite forallb_forall in Hall.
  specialize (Hall total (StrategyFacts.valid_total_listed cat total Ht)).
  rewrite forallb_forall in Hall.
  specialize (Hall total' (StrategyFacts.valid_total_listed cat total' Ht')).
  unfold stand_kept in Hall.
  rewrite Hstand, Ascii.eqb_refl in Hall.
  apply Z.leb_le in Hle. rewrite Hle in Hall. simpl in Hall.
  now apply Ascii.eqb_eq.
Qed.

Lemma stand_is_kept_on_larger_totals_witness :
  answer Hard 12 5 = "S"%char ∧ answer Hard 16 5 = "S"%char.
Proof.
  assert (Hstand : answer Hard 12 5 = "S"%char) by reflexivity.
  split; [exact Hstand|].
  apply (stand_is_kept_on_larger_totals Hard 5 12 16);
    unfold valid_total, valid_dealer; (discriminate || lia || exact Hstand).
Defined.

End ChartFacts.

(** ** The console *)

Module UiFacts.
Import Ui Rules Checks.
Import Session.

(** Case analysis on all 256 characters. *)
Ltac each_char c := destruct c as [[] [] [] [] [] [] [] []].

Lemma existsb_eqb_elem_of (c : ascii) (l : list ascii) :
  existsb (Ascii.eqb c) l = true ↔ c ∈ l.
Proof.
  rewrite existsb_exists, list_elem_of_In. split.
  - intros (x & Hx & Heq). apply Ascii.eqb_eq in Heq. now subst.
  - intros Hc. exists c. split; [assumption | apply Ascii.eqb_refl].
Qed.

Lemma check_answer_first_letter a first rest :
  check_answer (action_of_line (String first rest)) (action_code a)
  = existsb (Ascii.eqb first) (accepted_letters a).
Proof. destruct a; each_char first; reflexivity. Qed.

(** X6: an answer is judged correct exactly when the line typed begins
    with the letter of the chart's action, in either case; for Split both
    Y and P are taken.  An empty line is never a correct answer. *)
Theorem correct_answer_by_first_letter (a : Action) (line : string) :
  check_answer (action_of_line line) (action_code a) = true
  ↔ ∃ first rest, line = String first rest ∧ first ∈ accepted_letters a.
Proof.
  destruct line as [|first rest].
  - split; [destruct a; discriminate | intros (? & ? & ? & _); discriminate].
  - rewrite check_answer_first_letter, existsb_eqb_elem_of. split.
    + intros Hin. eauto.
    + intros (f & r & [= <- <-] & Hin). exact Hin.
Qed.

Lemma action_of_line_quit_letter first rest :
  Ascii.eqb (action_of_line (String first rest)) NUL
  = existsb (Ascii.eqb first) quit_letters.
Proof. each_char first; reflexivity. Qed.

Lemma asks_to_quit_letter first rest :
  asks_to_quit (String first rest) = existsb (Ascii.eqb first) ["q"; "Q"]%char.
Proof. each_char first; reflexivity. Qed.

Lemma action_of_line_upper line :
  is_lower (action_of_line line) = false ∧ action_of_line line ≠ "Q"%char.
Proof.
  destruct line as [|first rest]; [split; [reflexivity | discriminate]|].
  each_char first; split; (reflexivity || discriminate).
Qed.

(** X7: asked for an action, the session ends exactly on an empty line
    and on a line that begins with q, Q or the character 0; the action
    read is never a lower-case letter and never Q.  Asked whether to go
    on, it ends exactly on a line that begins with q or Q: there an empty
    line continues. *)
Theorem lines_that_quit (line : string) :
  (action_of_line line = NUL
   ↔ line = "" ∨ ∃ first rest, line = String first rest ∧ first ∈ quit_letters) ∧
  is_lower (action_of_line line) = false ∧
  action_of_line line ≠ "Q"%char ∧
  (asks_to_quit line = true
   ↔ ∃ first rest, line = String first rest ∧ first ∈ ["q"; "Q"]%char).
Proof.
  split; [|split; [apply action_of_line_upper|
           split; [apply action_of_line_upper|]]].
  - destruct line as [|first rest].
    + split; [now left | reflexivity].
    + rewrite <- Ascii.eqb_eq, action_of_line_quit_letter, existsb_eqb_elem_of.
      split.
      * intros Hin. right. eauto.
      * intros [?|(f & r & [= <- <-] & Hin)]; [discriminate | exact Hin].
  - destruct line as [|first rest].
    + split; [discriminate | intros (? & ? & ? & _); discriminate].
    + rewrite asks_to_quit_letter, existsb_eqb_elem_of. split.
      * intros Hin. eauto.
      * intros (f & r & [= <- <-] & Hin). exact Hin.
Qed.

(** X8: an answer judged correct is shown with the same word as the
    correct action, so the feedback never contradicts the verdict. *)
Theorem correct_answer_reads_alike (user_action correct_action : ascii) :
  check_answer user_action correct_action = true →
  action_to_string user_action = action_to_string correct_action.
Proof.
  unfold check_answer.
  destruct (Ascii.eqb_spec user_action "P") as [->|_].
  - intros Heq. apply Ascii.eqb_eq in Heq. now subst.
  - intros Heq. apply Ascii.eqb_eq in Heq. now subst.
Qed.

Lemma correct_answer_reads_alike_witness :
  action_to_string "P" = action_to_string "Y".
Proof. apply (correct_answer_reads_alike "P" "Y"). reflexivity. Defined.

Lemma to_int_proper (n : Z) :
  Z.to_int n ≠ Decimal.Pos Decimal.Nil ∧ Z.to_int n ≠ Decimal.Neg Decimal.Nil.
Proof.
  pose proof (DecimalZ.to_of (Z.to_int n)) as Hnorm.
  rewrite DecimalZ.of_to in Hnorm.
  split; intros Heq; rewrite Heq in Hnorm; discriminate.
Qed.

Lemma to_string_read_back (n : Z) :
  NilZero.int_of_string (to_string n) = Some (Z.to_int n).
Proof.
  destruct (to_int_proper n) as [Hpos Hneg].
  unfold to_string. now apply NilZero.isi.
Qed.

Lemma to_string_inj (n m : Z) : to_string n = to_string m → n = m.
Proof.
  intros Heq. apply DecimalZ.to_int_inj.
  pose proof (to_string_read_back n) as Hn.
  rewrite Heq, to_string_read_back in Hn. congruence.
Qed.

Lemma to_string_not_ace (n : Z) : to_string n ≠ "A".
Proof.
  intros Heq. pose proof (to_string_read_back n) as Hn.
  rewrite Heq in Hn. discriminate.
Qed.

Lemma card_to_string_same (card card' : Z) :
  card_to_string card = card_to_string card' → card = card'.
Proof.
  unfold card_to_string.
  assert (Hten : to_string 10 = "10") by reflexivity.
  destruct (Z.eqb_spec card 11) as [->|?], (Z.eqb_spec card' 11) as [->|?];
    try reflexivity.
  - destruct (Z.eqb_spec card' 10); [discriminate|].
    intros Heq. symmetry in Heq. now apply to_string_not_ace in Heq.
  - destruct (Z.eqb_spec card 10); [discriminate|].
    intros Heq. now apply to_string_not_ace in Heq.
  - destruct (Z.eqb_spec card 10) as [->|?], (Z.eqb_spec card' 10) as [->|?];
      try reflexivity; rewrite <- ?Hten; apply to_string_inj.
Qed.

(** X9: two different card values, valid or not, are never shown alike:
    the Ace is the only one shown as a letter, and the text for 10 is the
    number's own. *)
Theorem card_to_string_distinct (card card' : Z) :
  card ≠ card' → card_to_string card ≠ card_to_string card'.
Proof. intros Hne Heq. apply Hne. now apply card_to_string_same. Qed.

Lemma card_to_string_distinct_witness :
  card_to_string 1 ≠ card_to_string 11.
Proof. apply (card_to_string_distinct 1 11). lia. Defined.

End UiFacts.

(** ** More on the statistics *)

Module StatsMore.
Import Stats Checks.

Lemma count_comm c c' d : count c (count c' d) = count c' (count c d).
Proof. destruct c, c', d; unfold count; simpl; f_equal; lia. Qed.

Lemma record_in_comm (m : buckets) key c key' c' :
  record_in (record_in m key c) key' c'
  = record_in (record_in m key' c') key c.
Proof.
  apply map_eq. intros i. rewrite !StatsFacts.record_in_lookup.
  repeat case_decide; try reflexivity.
  destruct (m !! i) as [d|]; simpl; [|reflexivity].
  now rewrite count_comm.
Qed.

(** X10: two recorded attempts can be swapped: the statistics depend on
    which attempts were recorded, not on their order. *)
Theorem record_attempt_comm s hand_type strength c hand_type' strength' c' :
  record_attempt (record_attempt s hand_type strength c)
    hand_type' strength' c'
  = record_attempt (record_attempt s hand_type' strength' c')
      hand_type strength c.
Proof.
  unfold record_attempt. simpl.
  f_equal; try apply record_in_comm.
  destruct c, c'; lia.
Qed.

Lemma clear_record_in (m : buckets) key c : clear (record_in m key c) = clear m.
Proof.
  apply map_eq. intros i.
  rewrite !StatsFacts.clear_lookup, StatsFacts.record_in_lookup.
  case_decide; [|reflexivity].
  now destruct (m !! i).
Qed.

(** X11: a reset forgets a recorded attempt altogether: resetting after
    one more attempt gives the state that resetting before it gives. *)
Theorem reset_session_forgets s hand_type strength c :
  reset_session (record_attempt s hand_type strength c) = reset_session s.
Proof.
  unfold reset_session, record_attempt. simpl.
  now rewrite !clear_record_in.
Qed.

(** *** Buckets against the global counter *)

Lemma bucket_total_record_in (m : buckets) key c k :
  bucket_total (record_in m key c) k
  = bucket_total m k
    + (if decide (key = k)
       then match m !! k with Some _ => 1 | None => 0 end else 0).
Proof.
  unfold bucket_total. rewrite StatsFacts.record_in_lookup.
  case_decide; [|lia].
  destruct (m !! k); simpl; lia.
Qed.

Lemma bucket_total_clear (m : buckets) k : bucket_total (clear m) k = 0.
Proof.
  unfold bucket_total. rewrite StatsFacts.clear_lookup.
  now destruct (m !! k).
Qed.

(** Among three different keys, [record_in] counts in one bucket when the
    key is one of them and present, and in none otherwise. *)
Lemma recorded_record_in (m : buckets) key c k1 k2 k3 :
  k1 ≠ k2 → k1 ≠ k3 → k2 ≠ k3 →
  is_Some (m !! k1) → is_Some (m !! k2) → is_Some (m !! k3) →
  recorded (record_in m key c) [k1; k2; k3]
  = recorded m [k1; k2; k3] + (if decide (key ∈ [k1; k2; k3]) then 1 else 0).
Proof.
  intros H12 H13 H23 [d1 Hd1] [d2 Hd2] [d3 Hd3].
  unfold recorded. simpl. rewrite !bucket_total_record_in, Hd1, Hd2, Hd3.
  destruct (decide (key ∈ [k1; k2; k3])) as [Hin|Hin];
    rewrite !elem_of_cons, elem_of_nil in Hin.
  - repeat case_decide; subst; try lia; intuition congruence.
  - repeat case_decide; subst; try lia; exfalso; apply Hin; auto.
Qed.

Lemma recorded_nonneg (m : buckets) keys :
  map_Forall (λ _, bucket_ok) m → 0 ≤ recorded m keys.
Proof.
  intros Hm. induction keys as [|k keys IH]; simpl; [lia|].
  assert (0 ≤ bucket_total m k); [|lia].
  unfold bucket_total. destruct (m !! k) as [d|] eqn:Hk; [|lia].
  specialize (Hm k d Hk). unfold bucket_ok in Hm. lia.
Qed.

Lemma bucket_total_le_recorded (m : buckets) keys k :
  map_Forall (λ _, bucket_ok) m → k ∈ keys →
  bucket_total m k ≤ recorded m keys.
Proof.
  intros Hm. induction keys as [|k' keys IH]; [intros Hin; inversion Hin|].
  intros Hin. simpl. apply elem_of_cons in Hin as [->|Hin].
  - pose proof (recorded_nonneg m keys Hm). lia.
  - specialize (IH Hin).
    assert (0 ≤ bucket_total m k'); [|lia].
    unfold bucket_total. destruct (m !! k') as [d|] eqn:Hk; [|lia].
    specialize (Hm k' d Hk). unfold bucket_ok in Hm. lia.
Qed.

Lemma recorded_category s hand_type c :
  consistent s →
  recorded (record_in (by_category_ s) hand_type c) category_keys
  = recorded (by_category_ s) category_keys
    + (if decide (hand_type ∈ category_keys) then 1 else 0).
Proof.
  intros (_ & _ & _ & Hkeys & _). unfold category_keys in *.
  apply recorded_record_in; try discriminate;
    apply Hkeys; rewrite !elem_of_cons; auto.
Qed.

Lemma recorded_strength s strength c :
  consistent s →
  recorded (record_in (by_dealer_strength_ s) strength c) strength_keys
  = recorded (by_dealer_strength_ s) strength_keys
    + (if decide (strength ∈ strength_keys) then 1 else 0).
Proof.
  intros (_ & _ & _ & _ & Hkeys). unfold strength_keys in *.
  apply recorded_record_in; try discriminate;
    apply Hkeys; rewrite !elem_of_cons; auto.
Qed.

Lemma reachable_bounded s : reachable s → bounded s.
Proof.
  induction 1 as [|s ht ds c Hreach IH Hmax|s Hreach IH].
  - unfold bounded. vm_compute. repeat split; discriminate.
  - destruct IH as (_ & Hcat & Hstr).
    pose proof (StatsFacts.reachable_consistent s Hreach) as Hcons.
    unfold bounded, record_attempt.
    cbn [total_attempts_ by_category_ by_dealer_strength_].
    rewrite recorded_category, recorded_strength by assumption.
    repeat case_decide; lia.
  - unfold bounded, reset_session, recorded.
    cbn [total_attempts_ by_category_ by_dealer_strength_].
    simpl. rewrite !bucket_total_clear. unfold INT_MAX. lia.
Qed.

(** X12: in every reachable state no counter has left the range of
    [int]: the global total is at most [INT_MAX], the category buckets
    together and the strength buckets together hold at most as many
    attempts as the global total, and in each bucket
    [0 ≤ correct ≤ total ≤ total_attempts_]. *)
Theorem counters_stay_int s :
  reachable s →
  0 ≤ correct_answers_ s ≤ total_attempts_ s ∧
  total_attempts_ s ≤ INT_MAX ∧
  recorded (by_category_ s) category_keys ≤ total_attempts_ s ∧
  recorded (by_dealer_strength_ s) strength_keys ≤ total_attempts_ s ∧
  ∀ key d,
    by_category_ s !! key = Some d ∨ by_dealer_strength_ s !! key = Some d →
    0 ≤ correct d ≤ total d ∧ total d ≤ total_attempts_ s.
Proof.
  intros Hreach.
  destruct (reachable_bounded s Hreach) as (Hmax & Hcat & Hstr).
  destruct (StatsFacts.reachable_consistent s Hreach)
    as (Hglobal & Hcok & Hsok & Hckeys & Hskeys).
  split; [exact Hglobal|]. split; [exact Hmax|].
  split; [exact Hcat|]. split; [exact Hstr|].
  intros key d [Hd|Hd].
  - split; [apply (Hcok key d Hd)|].
    assert (Hin : key ∈ category_keys) by (apply Hckeys; eauto).
    pose proof (bucket_total_le_recorded _ _ key Hcok Hin) as Hle.
    unfold bucket_total in Hle. rewrite Hd in Hle. lia.
  - split; [apply (Hsok key d Hd)|].
    assert (Hin : key ∈ strength_keys) by (apply Hskeys; eauto).
    pose proof (bucket_total_le_recorded _ _ key Hsok Hin) as Hle.
    unfold bucket_total in Hle. rewrite Hd in Hle. lia.
Qed.

Lemma counters_stay_int_witness :
  recorded (by_category_ two_attempts) category_keys
  ≤ total_attempts_ two_attempts.
Proof.
  apply (counters_stay_int two_attempts StatsFacts.two_attempts_reachable).
Defined.

(** *** Accuracy at the extremes *)

Lemma rnd_respects (rnd : Q → Q) x y :
  (∀ a b, (a <= b)%Q → (rnd a <= rnd b)%Q) → (x == y)%Q → (rnd x == rnd y)%Q.
Proof.
  intros Hmono Hxy. apply Qle_antisym; apply Hmono; rewrite Hxy; apply Qle_refl.
Qed.

Lemma percentage_all (rnd : Q → Q) t :
  (∀ a b, (a <= b)%Q → (rnd a <= rnd b)%Q) →
  (rnd 1 == 1)%Q → (rnd 100 == 100)%Q →
  t ≠ 0 → (percentage rnd t t == 100)%Q.
Proof.
  intros Hmono H1 H100 Ht. unfold percentage.
  assert (Hq : (inject_Z t / inject_Z t == 1)%Q).
  { apply Qmult_inv_r. intros Hzero.
    apply Ht. unfold Qeq in Hzero. simpl in Hzero. lia. }
  apply (rnd_respects rnd _ _ Hmono) in Hq. rewrite H1 in Hq.
  apply Qeq_trans with (rnd 100%Q); [|exact H100].
  apply (rnd_respects rnd _ _ Hmono). rewrite Hq. reflexivity.
Qed.

Lemma percentage_none (rnd : Q → Q) t :
  (∀ a b, (a <= b)%Q → (rnd a <= rnd b)%Q) →
  (rnd 0 == 0)%Q → (percentage rnd 0 t == 0)%Q.
Proof.
  intros Hmono H0. unfold percentage.
  assert (Hq : (inject_Z 0 / inject_Z t == 0)%Q)
    by (unfold Qdiv; apply Qmult_0_l).
  apply (rnd_respects rnd _ _ Hmono) in Hq. rewrite H0 in Hq.
  apply Qeq_trans with (rnd 0%Q); [|exact H0].
  apply (rnd_respects rnd _ _ Hmono). rewrite Hq. reflexivity.
Qed.

Lemma percentage_order (rnd : Q → Q) c c' t :
  (∀ a b, (a <= b)%Q → (rnd a <= rnd b)%Q) →
  0 < t → c ≤ c' → (percentage rnd c t <= percentage rnd c' t)%Q.
Proof.
  intros Hmono Ht Hc. unfold percentage.
  apply Hmono. apply Qmult_le_compat_r; [|discriminate].
  apply Hmono. unfold Qdiv. apply Qmult_le_compat_r.
  - now rewrite <- Zle_Qle.
  - apply Qinv_le_0_compat. change (inject_Z 0 <= inject_Z t)%Q.
    rewrite <- Zle_Qle. lia.
Qed.

(** X2: with a rounding that is monotone and exact on 0, 1 and 100, the
    session accuracy is exactly 100 when every attempt was correct,
    exactly 0 when none was, and of two states with the same positive
    number of attempts the one with more correct answers has the accuracy
    that is not smaller. *)
Theorem session_accuracy_extremes (rnd : Q → Q) s s' :
  (∀ a b, (a <= b)%Q → (rnd a <= rnd b)%Q) →
  (rnd 0 == 0)%Q → (rnd 1 == 1)%Q → (rnd 100 == 100)%Q →
  (total_attempts_ s ≠ 0 → correct_answers_ s = total_attempts_ s →
   (get_session_accuracy rnd s == 100)%Q) ∧
  (correct_answers_ s = 0 → (get_session_accuracy rnd s == 0)%Q) ∧
  (0 < total_attempts_ s → total_attempts_ s' = total_attempts_ s →
   correct_answers_ s ≤ correct_answers_ s' →
   (get_session_accuracy rnd s <= get_session_accuracy rnd s')%Q).
Proof.
  intros Hmono H0 H1 H100. unfold get_session_accuracy.
  split; [|split].
  - intros Hne ->. destruct (Z.eqb_spec (total_attempts_ s) 0); [lia|].
    now apply percentage_all.
  - intros ->. destruct (Z.eqb_spec (total_attempts_ s) 0); [reflexivity|].
    now apply percentage_none.
  - intros Hpos -> Hle.
    destruct (Z.eqb_spec (total_attempts_ s) 0); [lia|].
    now apply percentage_order.
Qed.

Lemma session_accuracy_extremes_witness :
  (get_session_accuracy round_down_1024
     (record_attempt new "hard" "weak" true) == 100)%Q.
Proof.
  apply (session_accuracy_extremes round_down_1024
           (record_attempt new "hard" "weak" true) new).
  - exact StatsFacts.round_down_1024_monotone.
  - reflexivity.
  - reflexivity.
  - reflexivity.
  - discriminate.
  - reflexivity.
Defined.

End StatsMore.

(** ** Scenarios *)

Module ScenarioFacts.
Import Trainer Session Checks.

Lemma pick_elem {A : Type} (v : list A) (g : Gen) :
  v ≠ [] → ∃ x g', pick v g = Some (x, g') ∧ x ∈ v.
Proof.
  intros Hv. unfold pick.
  assert (Hlen : 0 ≤ Z.of_nat (length v) - 1) by (destruct v; simpl in *; [congruence | lia]).
  pose proof (TrainerFacts.uniform_int_range 0 _ g Hlen) as Hi.
  destruct (uniform_int 0 (Z.of_nat (length v) - 1) g) as [i g'].
  simpl in Hi. unfold at_index.
  destruct (Z.ltb_spec i 0) as [?|_]; [lia|].
  destruct (lookup_lt_is_Some_2 v (Z.to_nat i)) as [x Hx]; [lia|].
  rewrite Hx. cbn [mbind option_bind].
  exists x, g'. split; [reflexivity|]. eapply list_elem_of_lookup_2, Hx.
Qed.

Lemma draw_pair_spec gs :
  ∃ v gs', draw_pair gs = Some ([v; v], v, gs') ∧ 2 ≤ v ≤ 11.
Proof.
  unfold draw_pair.
  destruct (pick_elem pair_values (scenario_gen gs)) as (v & g & Hpick & Hin);
    [discriminate|].
  rewrite Hpick. cbn [mbind option_bind].
  exists v, (mkGens g (cards_gen gs)). split; [reflexivity|].
  unfold pair_values in Hin. rewrite !elem_of_cons, elem_of_nil in Hin. lia.
Qed.

Lemma draw_soft_spec gs :
  ∃ other gs',
    draw_soft gs = Some ([11; other], 11 + other, gs') ∧ 2 ≤ other ≤ 9.
Proof.
  unfold draw_soft.
  pose proof (TrainerFacts.uniform_int_range 2 9 (scenario_gen gs)) as Hother.
  destruct (uniform_int 2 9 (scenario_gen gs)) as [other g].
  exists other, (mkGens g (cards_gen gs)).
  split; [reflexivity | apply Hother; lia].
Qed.

Lemma hard_cards_spec fuel total g :
  5 ≤ total ≤ 20 → (20 ≤ fuel)%nat →
  ∃ cs g',
    generate_hand_cards fuel "hard" total g = Some (cs, g') ∧
    sum_cards cs = total ∧ Forall (λ c, 2 ≤ c ≤ 11) cs ∧ cs ≠ [].
Proof.
  intros Htotal Hfuel.
  destruct (TrainerFacts.generate_hand_cards_returns "hard" total g)
    as (cs & g' & Hgen).
  assert (Hrun : generate_hand_cards fuel "hard" total g = Some (cs, g'))
    by (apply Hgen; lia).
  exists cs, g'. split; [assumption|].
  destruct (Z.le_gt_cases total 11) as [Hlow|Hhigh].
  - revert Hrun. TrainerFacts.hard_branch.
    destruct (Z.leb_spec total 11) as [_|?]; [|lia].
    intros [= <- <-]. unfold sum_cards. simpl.
    repeat split; [|discriminate]. apply Forall_singleton. lia.
  - destruct (TrainerFacts.generate_hard_from_12 fuel total g cs g')
      as (Hsum & Hcards & Hlen); [lia | assumption |].
    repeat split; [assumption| |intros ->; simpl in Hlen; lia].
    eapply Forall_impl; [exact Hcards|].
    unfold hard_card. intros c Hc. lia.
Qed.

Lemma draw_hard_spec fuel gs :
  (20 ≤ fuel)%nat →
  ∃ cs total gs',
    draw_hard fuel "hard" gs = Some (cs, total, gs') ∧
    5 ≤ total ≤ 20 ∧ sum_cards cs = total ∧
    Forall (λ c, 2 ≤ c ≤ 11) cs ∧ cs ≠ [].
Proof.
  intros Hfuel. unfold draw_hard.
  pose proof (TrainerFacts.uniform_int_range 5 20 (scenario_gen gs)) as Htotal.
  destruct (uniform_int 5 20 (scenario_gen gs)) as [total g].
  simpl in Htotal. assert (Ht : 5 ≤ total ≤ 20) by (apply Htotal; lia).
  destruct (hard_cards_spec fuel total (cards_gen gs) Ht Hfuel)
    as (cs & gc & Hgen & Hcs).
  rewrite Hgen. cbn [mbind option_bind].
  exists cs, total, (mkGens g gc). split; [reflexivity | auto].
Qed.

(** The hand drawn once the dealer card is fixed. *)
Lemma draw_any_hand_spec fuel dealer gs :
  (20 ≤ fuel)%nat → 2 ≤ dealer ≤ 11 →
  ∃ sc gs',
    draw_any_hand fuel dealer gs = Some (sc, gs') ∧
    valid_scenario sc ∧ dealer_card sc = dealer.
Proof.
  intros Hfuel Hdealer. unfold draw_any_hand.
  destruct (pick_elem hand_types (scenario_gen gs)) as (ht & g & Hpick & Hin);
    [discriminate|].
  rewrite Hpick. cbn [mbind option_bind].
  unfold hand_types in Hin. rewrite !elem_of_cons, elem_of_nil in Hin.
  destruct Hin as [->|[->|[->|[]]]];
    cbn [String.eqb Ascii.eqb Bool.eqb andb].
  - destruct (draw_hard_spec fuel (mkGens g (cards_gen gs)) Hfuel)
      as (cs & total & gs' & Hdraw & Hcs).
    rewrite Hdraw. cbn [mbind option_bind].
    eexists _, _. split; [reflexivity|].
    split; [|reflexivity]. split; [assumption|].
    right. right. simpl. tauto.
  - destruct (draw_soft_spec (mkGens g (cards_gen gs)))
      as (other & gs' & Hdraw & Hother).
    rewrite Hdraw. cbn [mbind option_bind].
    eexists _, _. split; [reflexivity|].
    split; [|reflexivity]. split; [assumption|].
    right. left. simpl. repeat split; try lia. do 2 f_equal. lia.
  - destruct (draw_pair_spec (mkGens g (cards_gen gs)))
      as (v & gs' & Hdraw & Hv).
    rewrite Hdraw. cbn [mbind option_bind].
    eexists _, _. split; [reflexivity|].
    split; [|reflexivity]. split; [assumption|].
    left. simpl. tauto.
Qed.

Lemma random_scenario_spec fuel gs :
  (20 ≤ fuel)%nat →
  ∃ sc gs', random_scenario fuel gs = Some (sc, gs') ∧ valid_scenario sc.
Proof.
  intros Hfuel. unfold random_scenario.
  pose proof (TrainerFacts.uniform_int_range 2 11 (scenario_gen gs)) as Hd.
  destruct (uniform_int 2 11 (scenario_gen gs)) as [dealer g]. simpl in Hd.
  destruct (draw_any_hand_spec fuel dealer (mkGens g (cards_gen gs)) Hfuel)
    as (sc & gs' & Hdraw & Hvalid & _); [apply Hd; lia|].
  eauto.
Qed.

Lemma dealer_group_scenario_spec fuel dealer_group_ gs :
  (20 ≤ fuel)%nat →
  ∃ sc gs',
    dealer_group_scenario fuel dealer_group_ gs = Some (sc, gs') ∧
    valid_scenario sc ∧
    dealer_card sc ∈
      (if dealer_group_ =? 1 then weak_cards
       else if dealer_group_ =? 2 then medium_cards else strong_cards).
Proof.
  intros Hfuel. unfold dealer_group_scenario.
  set (group := if dealer_group_ =? 1 then weak_cards
                else if dealer_group_ =? 2 then medium_cards
                else strong_cards).
  assert (Hpick : ∃ dealer g,
             (if dealer_group_ =? 1 then pick weak_cards (scenario_gen gs)
              else if dealer_group_ =? 2
                   then pick medium_cards (scenario_gen gs)
                   else pick strong_cards (scenario_gen gs))
             = Some (dealer, g) ∧ dealer ∈ group).
  { unfold group.
    destruct (dealer_group_ =? 1); [|destruct (dealer_group_ =? 2)];
      apply pick_elem; discriminate. }
  destruct Hpick as (dealer & g & -> & Hin). cbn [mbind option_bind].
  assert (Hdealer : 2 ≤ dealer ≤ 11).
  { unfold group, weak_cards, medium_cards, strong_cards in Hin.
    destruct (dealer_group_ =? 1); [|destruct (dealer_group_ =? 2)];
      rewrite !elem_of_cons, elem_of_nil in Hin; lia. }
  destruct (draw_any_hand_spec fuel dealer (mkGens g (cards_gen gs))
              Hfuel Hdealer) as (sc & gs' & Hdraw & Hvalid & Hcard).
  exists sc, gs'. rewrite Hcard. auto.
Qed.

Lemma hand_type_scenario_spec fuel hand_type_choice_ gs :
  (20 ≤ fuel)%nat →
  ∃ sc gs',
    hand_type_scenario fuel hand_type_choice_ gs = Some (sc, gs') ∧
    valid_scenario sc ∧ hand_type sc = chosen_hand_type hand_type_choice_.
Proof.
  intros Hfuel. unfold hand_type_scenario, chosen_hand_type.
  pose proof (TrainerFacts.uniform_int_range 2 11 (scenario_gen gs)) as Hd.
  destruct (uniform_int 2 11 (scenario_gen gs)) as [dealer g]. simpl in Hd.
  assert (Hdealer : 2 ≤ dealer ≤ 11) by (apply Hd; lia).
  destruct (hand_type_choice_ =? 1); [|destruct (hand_type_choice_ =? 2)].
  - destruct (draw_hard_spec fuel (mkGens g (cards_gen gs)) Hfuel)
      as (cs & total & gs' & Hdraw & Hcs).
    rewrite Hdraw. cbn [mbind option_bind].
    eexists _, _. split; [reflexivity|].
    split; [|reflexivity]. split; [assumption|].
    right. right. simpl. tauto.
  - destruct (draw_soft_spec (mkGens g (cards_gen gs)))
      as (other & gs' & Hdraw & Hother).
    rewrite Hdraw. cbn [mbind option_bind].
    eexists _, _. split; [reflexivity|].
    split; [|reflexivity]. split; [assumption|].
    right. left. simpl. repeat split; try lia. do 2 f_equal. lia.
  - destruct (draw_pair_spec (mkGens g (cards_gen gs)))
      as (v & gs' & Hdraw & Hv).
    rewrite Hdraw. cbn [mbind option_bind].
    eexists _, _. split; [reflexivity|].
    split; [|reflexivity]. split; [assumption|].
    left. simpl. tauto.
Qed.

Lemma absolute_scenario_spec fuel gs :
  (20 ≤ fuel)%nat →
  ∃ sc gs',
    absolute_scenario fuel gs = Some (sc, gs') ∧
    valid_scenario sc ∧
    (hand_type sc, player_total sc) ∈
      [("pair", 11); ("pair", 8); ("pair", 10); ("pair", 5);
       ("hard", 17); ("hard", 18); ("hard", 19); ("hard", 20);
       ("soft", 19); ("soft", 20)].
Proof.
  intros Hfuel. unfold absolute_scenario.
  destruct (pick_elem absolutes (scenario_gen gs))
    as ([[ht cs] total] & g & Hpick & Hin); [discriminate|].
  rewrite Hpick. cbn [mbind option_bind].
  pose proof (TrainerFacts.uniform_int_range 2 11 g) as Hd.
  destruct (uniform_int 2 11 g) as [dealer g']. simpl in Hd.
  assert (Hdealer : 2 ≤ dealer ≤ 11) by (apply Hd; lia).
  unfold absolutes in Hin. rewrite !elem_of_cons, elem_of_nil in Hin.
  destruct Hin as [Hin|[Hin|[Hin|[Hin|[Hin|[Hin|[Hin|[Hin|[Hin|[Hin|[]]]]]]]]]]];
    injection Hin as -> -> ->; cbn [mbind option_bind].
  1-4: eexists _, _; split; [reflexivity|];
       split; [|rewrite !elem_of_cons; tauto];
       split; [assumption|]; left; simpl; repeat split; lia.
  5-6: eexists _, _; split; [reflexivity|];
       split; [|rewrite !elem_of_cons; tauto];
       split; [assumption|]; right; left; simpl; repeat split; lia.
  all: match goal with
       | |- context [generate_hand_cards ?f "hard" ?t ?g0] =>
           destruct (hard_cards_spec f t g0)
             as (cards & gc & Hgen & Hsum & Hall & Hne);
           [lia | assumption |]
       end;
       rewrite Hgen; cbn [mbind option_bind];
       eexists _, _; split; [reflexivity|];
       split; [|rewrite !elem_of_cons; tauto];
       split; [assumption|]; right; right; simpl;
       repeat split; (lia || assumption).
Qed.

Lemma generate_scenario_valid fuel m gs :
  (20 ≤ fuel)%nat →
  ∃ sc gs', generate_scenario fuel m gs = Some (sc, gs') ∧ valid_scenario sc.
Proof.
  intros Hfuel. destruct m as [|k|k|]; simpl.
  - apply random_scenario_spec, Hfuel.
  - destruct (dealer_group_scenario_spec fuel k gs Hfuel)
      as (sc & gs' & Hgen & Hvalid & _). eauto.
  - destruct (hand_type_scenario_spec fuel k gs Hfuel)
      as (sc & gs' & Hgen & Hvalid & _). eauto.
  - destruct (absolute_scenario_spec fuel gs Hfuel)
      as (sc & gs' & Hgen & Hvalid & _). eauto.
Qed.

Lemma valid_scenario_recognized sc :
  valid_scenario sc → hand_type sc ∈ Stats.category_keys.
Proof.
  intros (_ & [(-> & _)|[(-> & _)|(-> & _)]]);
    unfold Stats.category_keys; rewrite !elem_of_cons; auto.
Qed.

(** Not one of the 360 keys of the valid ranges is missing. *)
Lemma every_key_has_entry :
  forallb (λ cat,
    forallb (λ total, forallb (has_entry cat total) dealers)
      (Rules.totals_of cat))
    [Rules.Hard; Rules.Soft; Rules.Pair] = true.
Proof. vm_compute. reflexivity. Qed.

Lemma valid_key_has_entry cat total dealer :
  Rules.valid_total cat total → Rules.valid_dealer dealer →
  is_Some (consulted_table (Rules.category_name cat) !! (total, dealer)).
Proof.
  intros Ht Hd.
  pose proof every_key_has_entry as Hall.
  rewrite forallb_forall in Hall.
  assert (Hcat : In cat [Rules.Hard; Rules.Soft; Rules.Pair])
    by (destruct cat; simpl; auto).
  specialize (Hall cat Hcat). rewrite forallb_forall in Hall.
  specialize (Hall total (StrategyFacts.valid_total_listed cat total Ht)).
  rewrite forallb_forall in Hall.
  specialize (Hall dealer (StrategyFacts.in_seqZ_interval 2 11 dealer Hd)).
  unfold has_entry in Hall.
  destruct (consulted_table _ !! _) as [c|]; [eauto | discriminate].
Qed.

Lemma get_correct_action_consulted hand_type total dealer :
  Strategy.get_correct_action Strategy.new hand_type total dealer
  = Strategy.find_or_hit (consulted_table hand_type) (total, dealer).
Proof.
  unfold Strategy.get_correct_action, consulted_table.
  destruct (String.eqb hand_type "pair"); [reflexivity|].
  destruct (String.eqb hand_type "soft"); reflexivity.
Qed.

(** X13: in every mode, whatever the generators give and whatever was
    chosen at setup, a scenario is produced; its hand type is hard, soft
    or pair, its dealer card is from 2 to 11, its cards fit the hand type,
    and its key is held by the table the chart consults: the correct
    answer is that entry of the chart, never the default for a miss. *)
Theorem every_scenario_is_on_the_chart fuel m gs :
  (20 ≤ fuel)%nat →
  ∃ sc gs',
    generate_scenario fuel m gs = Some (sc, gs') ∧
    valid_scenario sc ∧
    hand_type sc ∈ Stats.category_keys ∧
    Rules.lookup_domain (hand_type sc) (player_total sc) (dealer_card sc) ∧
    ∃ entry,
      consulted_table (hand_type sc) !! (player_total sc, dealer_card sc)
      = Some entry ∧
      Strategy.get_correct_action Strategy.new (hand_type sc)
        (player_total sc) (dealer_card sc) = entry.
Proof.
  intros Hfuel.
  destruct (generate_scenario_valid fuel m gs Hfuel)
    as (sc & gs' & Hgen & Hvalid).
  exists sc, gs'. split; [assumption|]. split; [assumption|].
  split; [now apply valid_scenario_recognized|].
  destruct Hvalid as (Hdealer & Hhand).
  assert (Hkey : ∃ cat, hand_type sc = Rules.category_name cat ∧
                        Rules.valid_total cat (player_total sc)).
  { destruct Hhand as [(Hht & Ht & _)|[(Hht & Ht & _)|(Hht & Ht & _)]].
    - exists Rules.Pair. split; [exact Hht | simpl; lia].
    - exists Rules.Soft. split; [exact Hht | simpl; lia].
    - exists Rules.Hard. split; [exact Hht | simpl; lia]. }
  destruct Hkey as (cat & Hht & Ht).
  split.
  - unfold Rules.lookup_domain. split; [assumption|].
    rewrite Hht. destruct cat; simpl in *; lia.
  - destruct (valid_key_has_entry cat _ _ Ht Hdealer) as [entry Hentry].
    rewrite <- Hht in Hentry. exists entry. split; [exact Hentry|].
    rewrite get_correct_action_consulted. unfold Strategy.find_or_hit.
    now rewrite Hentry.
Qed.

Lemma every_scenario_is_on_the_chart_witness :
  ∃ sc gs',
    generate_scenario 20 AbsoluteMode (mkGens sevens sevens) = Some (sc, gs') ∧
    valid_scenario sc ∧
    hand_type sc ∈ Stats.category_keys ∧
    Rules.lookup_domain (hand_type sc) (player_total sc) (dealer_card sc) ∧
    ∃ entry,
      consulted_table (hand_type sc) !! (player_total sc, dealer_card sc)
      = Some entry ∧
      Strategy.get_correct_action Strategy.new (hand_type sc)
        (player_total sc) (dealer_card sc) = entry.
Proof.
  apply (every_scenario_is_on_the_chart 20 AbsoluteMode (mkGens sevens sevens)).
  reflexivity.
Defined.

(** X14: a dealer-group session only shows dealer cards of the strength
    chosen at setup: weak for 1, medium for 2, and strong for every other
    number, whether or not the menu lists it. *)
Theorem dealer_group_is_honoured fuel dealer_group_ gs :
  (20 ≤ fuel)%nat →
  ∃ sc gs',
    generate_scenario fuel (DealerGroupMode dealer_group_) gs
    = Some (sc, gs') ∧
    Stats.get_dealer_strength (dealer_card sc)
    = chosen_strength dealer_group_.
Proof.
  intros Hfuel.
  destruct (dealer_group_scenario_spec fuel dealer_group_ gs Hfuel)
    as (sc & gs' & Hgen & _ & Hin).
  exists sc, gs'. split; [exact Hgen|].
  unfold chosen_strength, weak_cards, medium_cards, strong_cards in *.
  destruct (dealer_group_ =? 1); [|destruct (dealer_group_ =? 2)];
    rewrite !elem_of_cons, elem_of_nil in Hin;
    repeat (destruct Hin as [->|Hin]; [reflexivity|]); destruct Hin.
Qed.

Lemma dealer_group_is_honoured_witness :
  ∃ sc gs',
    generate_scenario 20 (DealerGroupMode 7) (mkGens sevens sevens)
    = Some (sc, gs') ∧
    Stats.get_dealer_strength (dealer_card sc) = "strong".
Proof.
  apply (dealer_group_is_honoured 20 7 (mkGens sevens sevens)). reflexivity.
Defined.

(** X15: a hand-type session only shows hands of the type chosen at
    setup: hard for 1, soft for 2, and pairs for every other number,
    whether or not the menu lists it. *)
Theorem hand_type_is_honoured fuel hand_type_choice_ gs :
  (20 ≤ fuel)%nat →
  ∃ sc gs',
    generate_scenario fuel (HandTypeMode hand_type_choice_) gs
    = Some (sc, gs') ∧
    hand_type sc = chosen_hand_type hand_type_choice_ ∧
    valid_scenario sc.
Proof.
  intros Hfuel.
  destruct (hand_type_scenario_spec fuel hand_type_choice_ gs Hfuel)
    as (sc & gs' & Hgen & Hvalid & Htype).
  exists sc, gs'. split; [exact Hgen|]. split; [exact Htype | exact Hvalid].
Qed.

Lemma hand_type_is_honoured_witness :
  ∃ sc gs',
    generate_scenario 20 (HandTypeMode (-4)) (mkGens sevens sevens)
    = Some (sc, gs') ∧
    hand_type sc = "pair" ∧ valid_scenario sc.
Proof.
  apply (hand_type_is_honoured 20 (-4) (mkGens sevens sevens)). reflexivity.
Defined.

(** X16: every scenario of the absolutes drill is one for which
    [is_absolute_rule] holds, and its correct answer is Split for aces and
    eights, Stand for tens and for the hard and soft totals, and, for a
    pair of fives, Double against 2 to 9 and Hit against 10 and Ace. *)
Theorem absolutes_drill_asks_absolutes fuel gs :
  (20 ≤ fuel)%nat →
  ∃ sc gs',
    generate_scenario fuel AbsoluteMode gs = Some (sc, gs') ∧
    Strategy.is_absolute_rule (hand_type sc) (player_total sc)
      (dealer_card sc) = true ∧
    Strategy.get_correct_action Strategy.new (hand_type sc)
      (player_total sc) (dealer_card sc)
    = absolute_answer (hand_type sc) (player_total sc) (dealer_card sc).
Proof.
  intros Hfuel.
  destruct (absolute_scenario_spec fuel gs Hfuel)
    as (sc & gs' & Hgen & (Hdealer & _) & Hin).
  exists sc, gs'. split; [exact Hgen|].
  destruct sc as [ht cs total dealer]. simpl in *.
  assert (Hcases : dealer = 2 ∨ dealer = 3 ∨ dealer = 4 ∨ dealer = 5 ∨
                   dealer = 6 ∨ dealer = 7 ∨ dealer = 8 ∨ dealer = 9 ∨
                   dealer = 10 ∨ dealer = 11) by lia.
  rewrite !elem_of_cons, elem_of_nil in Hin.
  repeat (destruct Hin as [[= -> ->]|Hin];
          [repeat (destruct Hcases as [->|Hcases]); try subst dealer;
           split; vm_compute; reflexivity|]).
  destruct Hin.
Qed.

Lemma absolutes_drill_asks_absolutes_witness :
  ∃ sc gs',
    generate_scenario 20 AbsoluteMode (mkGens sevens sevens) = Some (sc, gs') ∧
    Strategy.is_absolute_rule (hand_type sc) (player_total sc)
      (dealer_card sc) = true ∧
    Strategy.get_correct_action Strategy.new (hand_type sc)
      (player_total sc) (dealer_card sc)
    = absolute_answer (hand_type sc) (player_total sc) (dealer_card sc).
Proof.
  apply (absolutes_drill_asks_absolutes 20 (mkGens sevens sevens)).
  reflexivity.
Defined.

End ScenarioFacts.

(** ** Running a session *)

Module RunFacts.
Import Stats Session Checks.

Lemma get_explanation_returns hand_type total dealer :
  is_Some (Strategy.get_explanation Strategy.new hand_type total dealer).
Proof.
  unfold Strategy.get_explanation.
  rewrite StrategyFacts.dealer_strength_explanation.
  repeat match goal with
  | |- context [if ?b then _ else _] => destruct b
  end; eexists; reflexivity.
Qed.

(** *** Recording a list of attempts *)

Lemma record_all_cons st hand_type strength c attempts :
  record_all st ((hand_type, strength, c) :: attempts)
  = record_all (record_attempt st hand_type strength c) attempts.
Proof. reflexivity. Qed.

Lemma record_all_total st attempts :
  total_attempts_ (record_all st attempts)
  = total_attempts_ st + Z.of_nat (length attempts).
Proof.
  revert st. induction attempts as [|[[ht ds] c] attempts IH]; intros st.
  - simpl. lia.
  - rewrite record_all_cons, IH. simpl. lia.
Qed.

Lemma correct_ones_cons (a : Attempt) attempts :
  correct_ones (a :: attempts)
  = (if a.2 then 1 else 0) + correct_ones attempts.
Proof.
  unfold correct_ones. destruct a as [[ht ds] []].
  - rewrite filter_cons_True by reflexivity. cbn [snd length]. lia.
  - rewrite filter_cons_False by (simpl; discriminate). simpl. lia.
Qed.



Lemma record_all_reachable st attempts :
  reachable st →
  total_attempts_ st + Z.of_nat (length attempts) ≤ INT_MAX →
  reachable (record_all st attempts).
Proof.
  revert st. induction attempts as [|[[ht ds] c] attempts IH];
    intros st Hreach Hroom; [exact Hreach|].
  rewrite record_all_cons. apply IH.
  - apply reachable_record; [assumption | simpl length in Hroom; lia].
  - simpl. simpl length in Hroom. lia.
Qed.

Lemma record_all_recorded st attempts :
  consistent st → Forall recognized attempts →
  consistent (record_all st attempts) ∧
  recorded (by_category_ (record_all st attempts)) category_keys
  = recorded (by_category_ st) category_keys + Z.of_nat (length attempts) ∧
  recorded (by_dealer_strength_ (record_all st attempts)) strength_keys
  = recorded (by_dealer_strength_ st) strength_keys
    + Z.of_nat (length attempts).
Proof.
  revert st. induction attempts as [|[[ht ds] c] attempts IH];
    intros st Hcons Hrec.
  - cbn [record_all foldl length]. split; [exact Hcons | split; lia].
  - apply Forall_cons in Hrec as [[Hht Hds] Hrec]. simpl in Hht, Hds.
    rewrite record_all_cons.
    destruct (IH (record_attempt st ht ds c)) as (Hcons' & Hcat & Hstr);
      [now apply StatsFacts.record_attempt_consistent | assumption |].
    split; [assumption|]. rewrite Hcat, Hstr.
    unfold record_attempt. cbn [by_category_ by_dealer_strength_].
    rewrite StatsMore.recorded_category, StatsMore.recorded_strength
      by assumption.
    rewrite !decide_True by assumption. simpl length. lia.
Qed.

(** *** The question loop *)

Lemma get_dealer_strength_recognized dealer :
  get_dealer_strength dealer ∈ strength_keys.
Proof.
  unfold get_dealer_strength, strength_keys.
  repeat match goal with
  | |- context [if ?b then _ else _] => destruct b
  end; rewrite !elem_of_cons; auto.
Qed.

Lemma display_feedback_reads c user_action correct_action text io :
  (Ui.display_feedback c user_action correct_action text io).1
  = Ui.asks_to_quit (hd "" (Ui.lines io)) ∧
  Ui.lines (Ui.display_feedback c user_action correct_action text io).2
  = tl (Ui.lines io).
Proof.
  unfold Ui.display_feedback, Ui.getline.
  destruct (Ui.lines io) as [|line rest] eqn:Hlines; simpl; auto.
Qed.

Lemma ask_records left : ∀ fuel w,
  (20 ≤ fuel)%nat →
  ∃ w' attempts,
    ask left fuel w = Some w' ∧
    accounts_for w w' attempts ∧
    (length attempts ≤ left)%nat ∧
    (Ui.lines (console w) = [] → attempts = []) ∧
    Forall2 judged attempts (answers left (Ui.lines (console w))).
Proof.
  induction left as [|left IH]; intros fuel w Hfuel.
  - exists w, []. unfold accounts_for, correct_ones. simpl.
    repeat split; auto; try lia; try constructor.
  - cbn [ask].
    destruct (ScenarioFacts.generate_scenario_valid fuel (mode (session w))
                (gens w) Hfuel) as (sc & gs & Hgen & Hvalid).
    rewrite Hgen. cbn [mbind option_bind].
    unfold Ui.get_user_action, Ui.getline.
    destruct (Ui.lines (console w)) as [|line rest] eqn:Hlines.
    { exists (mkWorld (session w) (stats w) gs (console w)), [].
      unfold accounts_for, correct_ones. simpl.
      repeat split; auto; try lia; try constructor. }
    cbn [answers].
    destruct (Ascii.eqb (Ui.action_of_line line) Ui.NUL).
    { eexists _, []. split; [reflexivity|].
      unfold accounts_for, correct_ones. simpl.
      repeat split; auto; try lia; try constructor. }
    unfold show_feedback.
    destruct (get_explanation_returns (hand_type sc) (player_total sc)
                (dealer_card sc)) as [text ->].
    cbn [mbind option_bind].
    set (correct := check_answer _ _).
    match goal with
    | |- context [Ui.display_feedback ?c ?u ?a text ?io0] =>
        pose proof (display_feedback_reads c u a text io0) as [Hquit Hrest];
        destruct (Ui.display_feedback c u a text io0) as [quit io]
    end.
    cbn [fst snd Ui.lines] in Hquit, Hrest. rewrite <- Hquit.
    set (attempt := (hand_type sc, get_dealer_strength (dealer_card sc),
                     correct) : Attempt).
    assert (Hrec : recognized attempt).
    { split; simpl.
      - now apply ScenarioFacts.valid_scenario_recognized.
      - apply get_dealer_strength_recognized. }
    assert (Hjudged : judged attempt line) by (exists sc; split; auto).
    destruct quit.
    + eexists _, [attempt]. split; [reflexivity|].
      unfold accounts_for. rewrite correct_ones_cons.
      cbn [stats session total_count_ correct_count_ mode length].
      split; [|split; [lia | split; [discriminate|]]].
      * repeat split; auto.
        unfold correct_ones. simpl. destruct correct; lia.
      * repeat constructor. exact Hjudged.
    + cbn [mbind option_bind].
      match goal with
      | |- context [ask left fuel ?w0] =>
          destruct (IH fuel w0 Hfuel)
            as (w' & attempts & Hask & Hacc & Hlen & _ & Hans)
      end.
      rewrite Hask. exists w', (attempt :: attempts).
      split; [reflexivity|].
      destruct Hacc as (Hstats & Hall & Htotal & Hcorrect & Hmode).
      cbn [stats session total_count_ correct_count_ mode console] in *.
      rewrite Hrest in Hans.
      unfold accounts_for. rewrite correct_ones_cons.
      split; [|split; [simpl; lia | split; [discriminate|]]].
      * repeat split; auto.
        -- rewrite Htotal. simpl length. lia.
        -- rewrite Hcorrect. simpl. destruct correct; lia.
      * constructor; assumption.
Qed.

Lemma setup_session_keeps_max m io :
  get_max_questions (setup_session m io).1.2 = get_max_questions m.
Proof.
  destruct m; simpl; try reflexivity;
    unfold Ui.display_dealer_groups, Ui.display_hand_types;
    destruct (Ui.read_choice io); reflexivity.
Qed.

Lemma setup_session_keeps_lines m io :
  Ui.lines (setup_session m io).2 = Ui.lines io.
Proof.
  destruct m; simpl; try reflexivity;
    unfold Ui.display_dealer_groups, Ui.display_hand_types, Ui.read_choice;
    destruct (Ui.numbers io); reflexivity.
Qed.

(** The attempts of a whole run. *)
Lemma run_records fuel w :
  (20 ≤ fuel)%nat →
  ∃ w' attempts,
    run fuel w = Some w' ∧
    stats w' = record_all (stats w) attempts ∧
    Forall recognized attempts ∧
    total_count_ (session w')
    = total_count_ (session w) + Z.of_nat (length attempts) ∧
    correct_count_ (session w')
    = correct_count_ (session w) + correct_ones attempts ∧
    Z.of_nat (length attempts) ≤ get_max_questions (mode (session w)) ∧
    (Ui.lines (console w) = [] → attempts = []) ∧
    Forall2 judged attempts (answered_in w).
Proof.
  intros Hfuel. unfold run, answered_in.
  pose proof (setup_session_keeps_max (mode (session w)) (console w)) as Hmax.
  pose proof (setup_session_keeps_lines (mode (session w)) (console w))
    as Hlines.
  destruct (setup_session (mode (session w)) (console w)) as [[go_on m] io].
  simpl in Hmax, Hlines.
  destruct go_on.
  - match goal with
    | |- context [ask ?n fuel ?w0] =>
        destruct (ask_records n fuel w0 Hfuel)
          as (w' & attempts & Hask & Hacc & Hlen & Hquiet & Hans)
    end.
    destruct Hacc as (Hstats & Hall & Htotal & Hcorrect & _).
    cbn [stats session total_count_ correct_count_ console fst] in *.
    exists w', attempts. rewrite Hlines in Hquiet, Hans.
    rewrite Hmax in Hans.
    split; [exact Hask|]. clear Hask.
    split; [exact Hstats|]. split; [exact Hall|].
    split; [exact Htotal|]. split; [exact Hcorrect|].
    split; [|split; [exact Hquiet | exact Hans]].
    rewrite <- Hmax. destruct m; cbn [get_max_questions] in *; lia.
  - eexists _, []. split; [reflexivity|].
    unfold correct_ones. simpl.
    split; [reflexivity|]. split; [constructor|].
    split; [lia|]. split; [lia|].
    split; [destruct (mode (session w)); simpl; lia|].
    split; [reflexivity | constructor].
Qed.



Example drill_answers : answered_in drill = ["s"].
Proof. reflexivity. Qed.

(** X18: started on reachable statistics with room for 50 more attempts,
    a run leaves reachable statistics, and every question it answered is
    counted in one category bucket and in one strength bucket: the two
    sums of bucket totals grow exactly as the global total does. *)
Theorem run_counts_in_both_maps fuel w :
  (20 ≤ fuel)%nat →
  reachable (stats w) →
  total_attempts_ (stats w) + 50 ≤ INT_MAX →
  ∃ w',
    run fuel w = Some w' ∧
    reachable (stats w') ∧
    recorded (by_category_ (stats w')) category_keys
    - recorded (by_category_ (stats w)) category_keys
    = total_attempts_ (stats w') - total_attempts_ (stats w) ∧
    recorded (by_dealer_strength_ (stats w')) strength_keys
    - recorded (by_dealer_strength_ (stats w)) strength_keys
    = total_attempts_ (stats w') - total_attempts_ (stats w).
Proof.
  intros Hfuel Hreach Hroom.
  destruct (run_records fuel w Hfuel)
    as (w' & attempts & Hrun & Hstats & Hall & _ & _ & Hmax & _).
  assert (Hlen : Z.of_nat (length attempts) ≤ 50)
    by (destruct (mode (session w)); simpl in Hmax; lia).
  exists w'. split; [assumption|]. rewrite Hstats.
  split; [apply record_all_reachable; [assumption | lia]|].
  destruct (record_all_recorded (stats w) attempts) as (_ & Hcat & Hstr);
    [now apply StatsFacts.reachable_consistent | assumption |].
  rewrite Hcat, Hstr, record_all_total. lia.
Qed.

Lemma run_counts_in_both_maps_witness :
  ∃ w',
    run 20 drill = Some w' ∧
    reachable (stats w') ∧
    recorded (by_category_ (stats w')) category_keys
    - recorded (by_category_ (stats drill)) category_keys
    = total_attempts_ (stats w') - total_attempts_ (stats drill) ∧
    recorded (by_dealer_strength_ (stats w')) strength_keys
    - recorded (by_dealer_strength_ (stats drill)) strength_keys
    = total_attempts_ (stats w') - total_attempts_ (stats drill).
Proof.
  apply (run_counts_in_both_maps 20 drill).
  - reflexivity.
  - apply reachable_new.
  - vm_compute. discriminate.
Defined.

(** X19: when the input has ended, a run of any mode records nothing:
    the statistics and the session's counters are as before, whatever
    number the setup read. *)
Theorem run_at_end_of_input fuel w :
  (20 ≤ fuel)%nat →
  Ui.lines (console w) = [] →
  ∃ w',
    run fuel w = Some w' ∧
    stats w' = stats w ∧
    total_count_ (session w') = total_count_ (session w) ∧
    correct_count_ (session w') = correct_count_ (session w).
Proof.
  intros Hfuel Hlines.
  destruct (run_records fuel w Hfuel)
    as (w' & attempts & Hrun & Hstats & _ & Htotal & Hcorrect & _ & Hquiet
        & _).
  rewrite (Hquiet Hlines) in *. exists w'.
  split; [assumption|]. split; [exact Hstats|].
  unfold correct_ones in Hcorrect. simpl in Htotal, Hcorrect. lia.
Qed.

Lemma run_at_end_of_input_witness :
  ∃ w',
    run 20 silent_drill = Some w' ∧
    stats w' = stats silent_drill ∧
    total_count_ (session w') = total_count_ (session silent_drill) ∧
    correct_count_ (session w') = correct_count_ (session silent_drill).
Proof.
  apply (run_at_end_of_input 20 silent_drill); reflexivity.
Defined.

(** The drill shows a pair of aces against a 9; "s" is wrong, the empty
    line goes on, and "q" ends the session at the second question. *)
Example drill_outcome :
  ∃ w', run 20 drill = Some w' ∧
        total_count_ (session w') = 1 ∧ correct_count_ (session w') = 0 ∧
        total_attempts_ (stats w') = 1 ∧ Ui.lines (console w') = [].
Proof. eexists. split; [vm_compute; reflexivity|]. repeat split. Qed.

End RunFacts.
